(** * Spacecraft EPS power budget: routing controller and battery integrator

    A shallow embedding of the Python sources

      - [eps/power_model.py]            (pure power-budget formulas),
      - [eps/eps_controller.py]         (rule-based routing cascade),
      - [eps/battery_model.py]          (forward-Euler battery integrator),
      - [eps_power_flow_simulation.py]  (coupled headroom-capped step),

    together with the properties the specification states about them.

    Numbers.  The value of a Python [float] is a rational ([Q]), and
    equality of computed numbers is [Qeq] ([==]).  The modules named after
    the source files give the arithmetic the program writes down, without
    rounding; the properties stated over them are about guards, orderings,
    clamps and the configured runs.  The module [rounded] gives the same
    functions with every arithmetic operation followed by a rounding
    operator [fl], and [b64] is the rounding of binary64 (to nearest, ties
    to even, 53 significant bits; the exponent range is left unbounded, so
    overflow, subnormal numbers, infinities and NaN are not modelled).
    Properties that depend on how an operation rounds (the number of steps
    [int(duration_h / dt_h)] gives, sums and differences that are expected
    to cancel) are stated over [rounded], for every rounding operator that
    obeys [rounding_laws]; [b64] is one and the identity is another.
    Exceptions are modelled by a small error monad:
    [raise ValueError(...)] and the [ZeroDivisionError] of a float division
    by zero are both values of [exn]. *)

From Stdlib Require Import QArith Qminmax Qround ZArith List String Bool Lia Lqa.
From Stdlib Require Import Sorted Qpower Qabs.
Import ListNotations.
Open Scope Q_scope.

(* ------------------------------------------------------------------ *)
(** * Python runtime: exceptions, comparisons and float operations     *)
(* ------------------------------------------------------------------ *)

(** The f-strings passed to [ValueError], one constructor per template,
    carrying the interpolated values. *)
Inductive message : Type :=
| CapacityNotPositive (capacity_wh : Q)
| InitialSocOutOfRange (initial_soc : Q)
| EtaOutOfRange (eta : Q)
| TimestepNotPositive (dt_h : Q)
| DurationNotPositive (duration_h : Q)
| TimestepExceedsDuration (dt_h duration_h : Q)
| SocUpperLimitOutOfRange (soc_upper_limit : Q)
| CurrentSocOutOfRange (current_soc : Q)
| ExcessPowerNotPositive (p_excess_w : Q)
| StateOfChargeOutOfRange (soc : Q).

(** The text of each f-string as the source writes it, holes included. *)
Definition message_text (m : message) : string :=
  match m with
  | CapacityNotPositive _ =>
      "Battery capacity must be positive; received capacity_wh={capacity_wh!r}"
  | InitialSocOutOfRange _ =>
      "Initial SoC must be in [0.0, 1.0]; received initial_soc={initial_soc!r}"
  | EtaOutOfRange _ =>
      "Charging efficiency must be in (0.0, 1.0]; received eta={eta!r}"
  | TimestepNotPositive _ =>
      "Timestep must be positive; received dt_h={dt_h!r}"
  | DurationNotPositive _ =>
      "Duration must be positive; received duration_h={duration_h!r}"
  | TimestepExceedsDuration _ _ =>
      "Timestep dt_h={dt_h!r} exceeds duration_h={duration_h!r}"
  | SocUpperLimitOutOfRange _ =>
      "soc_upper_limit must be in (0.0, 1.0]; received soc_upper_limit={soc_upper_limit!r}"
  | CurrentSocOutOfRange _ =>
      "current_soc must be in [0.0, 1.0]; received current_soc={current_soc!r}"
  | ExcessPowerNotPositive _ =>
      "Excess power must be positive for charging; received p_excess_w={p_excess_w!r}"
  | StateOfChargeOutOfRange _ =>
      "State of charge must be in [0.0, 1.0]; received soc={soc!r}"
  end%string.

Inductive exn : Type :=
| ValueError (m : message)
| ZeroDivisionError.

Inductive result (A : Type) : Type :=
| Ok (a : A)
| Raise (e : exn).

Arguments Ok {A} a.
Arguments Raise {A} e.

Definition bind {A B : Type} (r : result A) (k : A -> result B) : result B :=
  match r with
  | Ok a => k a
  | Raise e => Raise e
  end.

Notation "x <- r ;; k" := (bind r (fun x => k))
  (at level 61, r at next level, right associativity).

(** [x < y] on floats, as a boolean. *)
Definition Qltb (x y : Q) : bool := negb (Qle_bool y x).

(** [x / y]: Python raises [ZeroDivisionError] on a zero divisor. *)
Definition py_div (x y : Q) : result Q :=
  if Qeq_bool y 0 then Raise ZeroDivisionError else Ok (x / y).

(** [int(x)]: truncation towards zero. *)
Definition py_int (x : Q) : Z := Z.quot (Qnum x) (Z.pos (Qden x)).

(** Rounding to the nearest integer, ties to the even neighbour. *)
Definition round_half_even (x : Q) : Z :=
  let f := Qfloor x in
  match ((x - inject_Z f) ?= (1 # 2))%Q with
  | Lt => f
  | Gt => (f + 1)%Z
  | Eq => if Z.even f then f else (f + 1)%Z
  end.

(** [round(x, ndigits)] for a non-negative [ndigits]. *)
Definition py_round (x : Q) (ndigits : nat) : Q :=
  let scale := inject_Z (10 ^ Z.of_nat ndigits) in
  inject_Z (round_half_even (x * scale)) / scale.

(** [max(a, b)] and [min(a, b)] return the first argument unless the second
    is strictly larger (smaller); [Qmax] and [Qmin] do the same. *)
Definition py_max (a b : Q) : Q := Qmax a b.
Definition py_min (a b : Q) : Q := Qmin a b.

(** [sum(l)]: the left fold of [+] that starts from 0. *)
Definition py_sum (l : list Q) : Q := fold_left Qplus l 0.

(* ------------------------------------------------------------------ *)
(** * eps/config.py                                                    *)
(* ------------------------------------------------------------------ *)

Module config.

Definition POWER_BUSES : list (Q * Q) :=
  [ (28, 12 # 10); (12, 8 # 10); (5, 25 # 10); (33 # 10, 15 # 10) ].

Definition EPS_MAX_POWER : Q := 150.
Definition EOL_DEGRADATION_FACTOR : Q := 25 # 100.
Definition SOLAR_ARRAY_POWER : Q := 180.
Definition BATTERY_CAPACITY_WH : Q := 100.
Definition BATTERY_INITIAL_SOC : Q := 70 # 100.
Definition BATTERY_CHARGING_EFFICIENCY : Q := 90 # 100.

End config.

(* ------------------------------------------------------------------ *)
(** * eps/power_model.py                                               *)
(* ------------------------------------------------------------------ *)

Module power_model.

(** The two-key dictionary [compute_nominal_power] returns. *)
Record NominalPower : Type := mkNominalPower {
  per_bus_W : list Q;
  P_nominal_W : Q
}.

Definition compute_nominal_power (buses : list (Q * Q)) : NominalPower :=
  let per_bus := map (fun b : Q * Q => let (v, i) := b in v * i) buses in
  let p_nominal := py_sum per_bus in
  mkNominalPower per_bus p_nominal.

(** The two-key dictionary [compute_power_margin] returns. *)
Record PowerMargin : Type := mkPowerMargin {
  P_margin_W : Q;
  compliant : bool
}.

Definition compute_power_margin (p_eps_max_w p_nominal_w : Q) : PowerMargin :=
  let margin := p_eps_max_w - p_nominal_w in
  mkPowerMargin margin (Qle_bool 0 margin).

Definition compute_eol_power (p_nominal_w alpha : Q) : Q :=
  p_nominal_w * (1 + alpha).

Definition compute_excess_solar_power (p_solar_w p_eol_w : Q) : Q :=
  p_solar_w - p_eol_w.

Definition compute_battery_remaining_energy (e_battery_wh soc : Q) : result Q :=
  if negb (Qle_bool 0 soc && Qle_bool soc 1)
  then Raise (ValueError (StateOfChargeOutOfRange soc))
  else Ok (e_battery_wh * (1 - soc)).

Definition compute_charging_time (e_remaining_wh p_excess_w eta : Q) : result Q :=
  if negb (Qltb 0 eta && Qle_bool eta 1)
  then Raise (ValueError (EtaOutOfRange eta))
  else if Qle_bool p_excess_w 0
  then Raise (ValueError (ExcessPowerNotPositive p_excess_w))
  else
    let p_charge_w := p_excess_w * eta in
    py_div e_remaining_wh p_charge_w.

End power_model.

(* ------------------------------------------------------------------ *)
(** * eps/eps_controller.py                                            *)
(* ------------------------------------------------------------------ *)

Module eps_controller.

Record RoutingAllocation : Type := mkRoutingAllocation {
  p_excess_w : Q;
  battery_charge_w : Q;
  payload_w : Q;
  supercap_w : Q;
  shunt_w : Q;
  battery_full : bool
}.

Record EPSController : Type := mkEPSController {
  _soc_upper_limit : Q
}.

(** [EPSController.__init__] *)
Definition EPSController_init (soc_upper_limit : Q) : result EPSController :=
  if negb (Qltb 0 soc_upper_limit && Qle_bool soc_upper_limit 1)
  then Raise (ValueError (SocUpperLimitOutOfRange soc_upper_limit))
  else Ok (mkEPSController soc_upper_limit).

(** [EPSController.route] *)
Definition route (self : EPSController) (p_excess_w current_soc : Q)
  : result RoutingAllocation :=
  if negb (Qle_bool 0 current_soc && Qle_bool current_soc 1)
  then Raise (ValueError (CurrentSocOutOfRange current_soc))
  else if Qle_bool p_excess_w 0
  then Ok (mkRoutingAllocation p_excess_w 0 0 0 0
             (Qle_bool (_soc_upper_limit self) current_soc))
  else
    let remaining_w := p_excess_w in
    let battery_full := Qle_bool (_soc_upper_limit self) current_soc in
    let battery_charge_w := if battery_full then 0 else remaining_w in
    let remaining_w := remaining_w - battery_charge_w in
    let payload_w := 0 in
    let remaining_w := remaining_w - payload_w in
    let supercap_w := 0 in
    let remaining_w := remaining_w - supercap_w in
    let shunt_w := remaining_w in
    Ok (mkRoutingAllocation p_excess_w battery_charge_w payload_w supercap_w
          shunt_w battery_full).

(** The read-only property [soc_upper_limit]. *)
Definition soc_upper_limit (self : EPSController) : Q :=
  _soc_upper_limit self.

End eps_controller.

(* ------------------------------------------------------------------ *)
(** * eps/battery_model.py                                             *)
(* ------------------------------------------------------------------ *)

Module battery_model.

Record BatteryState : Type := mkBatteryState {
  time_h : Q;
  energy_wh : Q;
  soc : Q;
  delta_e_wh : Q
}.

Record BatteryTimeSeries : Type := mkBatteryTimeSeries {
  steps : list BatteryState;
  dt_h : Q;
  duration_h : Q;
  capacity_wh : Q;
  eta : Q;
  p_excess_w : Q
}.

Record BatteryModel : Type := mkBatteryModel {
  _capacity_wh : Q;
  _eta : Q;
  _initial_energy_wh : Q
}.

(** [BatteryModel.__init__] *)
Definition BatteryModel_init (capacity_wh initial_soc eta : Q)
  : result BatteryModel :=
  if Qle_bool capacity_wh 0
  then Raise (ValueError (CapacityNotPositive capacity_wh))
  else if negb (Qle_bool 0 initial_soc && Qle_bool initial_soc 1)
  then Raise (ValueError (InitialSocOutOfRange initial_soc))
  else if negb (Qltb 0 eta && Qle_bool eta 1)
  then Raise (ValueError (EtaOutOfRange eta))
  else Ok (mkBatteryModel capacity_wh eta (initial_soc * capacity_wh)).

Definition _to_soc (self : BatteryModel) (energy_wh : Q) : result Q :=
  py_div energy_wh (_capacity_wh self).

Definition _clamp (self : BatteryModel) (energy_wh : Q) : Q :=
  py_max 0 (py_min (_capacity_wh self) energy_wh).

(** The body of [for _ in range(n_steps)]: the loop variables are
    [energy_wh], [time_h] and the list [result.steps], appended to in place. *)
Fixpoint euler_loop (self : BatteryModel) (p_excess_w dt_h : Q) (n_steps : nat)
    (energy_wh time_h : Q) (steps : list BatteryState)
  : result (list BatteryState) :=
  match n_steps with
  | O => Ok steps
  | S n =>
      let delta_e := _eta self * p_excess_w * dt_h in
      let new_energy := _clamp self (energy_wh + delta_e) in
      let time_h := time_h + dt_h in
      let energy_wh := new_energy in
      soc <- _to_soc self energy_wh ;;
      euler_loop self p_excess_w dt_h n energy_wh time_h
        (steps ++ [mkBatteryState (py_round time_h 10) energy_wh soc delta_e])
  end.

(** [BatteryModel.simulate] *)
Definition simulate (self : BatteryModel) (p_excess_w dt_h duration_h : Q)
  : result BatteryTimeSeries :=
  if Qle_bool dt_h 0
  then Raise (ValueError (TimestepNotPositive dt_h))
  else if Qle_bool duration_h 0
  then Raise (ValueError (DurationNotPositive duration_h))
  else if Qltb duration_h dt_h
  then Raise (ValueError (TimestepExceedsDuration dt_h duration_h))
  else
    let energy_wh := _initial_energy_wh self in
    let time_h := 0 in
    soc0 <- _to_soc self energy_wh ;;
    let steps0 := [mkBatteryState time_h energy_wh soc0 0] in
    ratio <- py_div duration_h dt_h ;;
    let n_steps := py_int ratio in
    steps <- euler_loop self p_excess_w dt_h (Z.to_nat n_steps)
               energy_wh time_h steps0 ;;
    Ok (mkBatteryTimeSeries steps dt_h duration_h (_capacity_wh self)
          (_eta self) p_excess_w).

End battery_model.

(* ------------------------------------------------------------------ *)
(** * eps_power_flow_simulation.py                                     *)
(* ------------------------------------------------------------------ *)

Module eps_power_flow_simulation.

(** [_route_step] returns the tuple
    [(battery_charging_w, shunt_w, new_battery_energy_wh, p_excess_w)]. *)
Definition _route_step
    (p_solar_w p_avionics_w battery_energy_wh eta capacity_wh dt_h : Q)
  : result (Q * Q * Q * Q) :=
  let p_excess := p_solar_w - p_avionics_w in
  let remaining := py_max p_excess 0 in
  let e_headroom_wh := capacity_wh - battery_energy_wh in
  p_charge_max <-
    (if Qltb 0 dt_h then py_div e_headroom_wh (eta * dt_h) else Ok 0) ;;
  let battery_charging_w := py_min remaining p_charge_max in
  let remaining := remaining - battery_charging_w in
  let shunt_w := remaining in
  let delta_e := eta * battery_charging_w * dt_h in
  let new_energy :=
    py_min (py_max (battery_energy_wh + delta_e) 0) capacity_wh in
  Ok (battery_charging_w, shunt_w, new_energy, p_excess).

Definition DT_H : Q := 1 / 60.
Definition DURATION_H : Q := 1 # 2.

Record EPSTimeSeries : Type := mkEPSTimeSeries {
  time_h : list Q;
  solar_power_w : list Q;
  avionics_power_w : list Q;
  battery_charging_w : list Q;
  shunt_dissipation_w : list Q;
  battery_energy_wh : list Q;
  battery_soc : list Q
}.

(** One round of the seven [append] calls. *)
Definition append_record (ts : EPSTimeSeries)
    (t solar avionics charging shunt energy soc : Q) : EPSTimeSeries :=
  mkEPSTimeSeries
    (time_h ts ++ [t]) (solar_power_w ts ++ [solar])
    (avionics_power_w ts ++ [avionics]) (battery_charging_w ts ++ [charging])
    (shunt_dissipation_w ts ++ [shunt]) (battery_energy_wh ts ++ [energy])
    (battery_soc ts ++ [soc]).

(** [_compute_static_power] returns [(p_eol, p_excess, P_solar)]. *)
Definition _compute_static_power : Q * Q * Q :=
  let nominal := power_model.compute_nominal_power config.POWER_BUSES in
  let p_eol :=
    power_model.compute_eol_power (power_model.P_nominal_W nominal)
      config.EOL_DEGRADATION_FACTOR in
  let p_excess :=
    power_model.compute_excess_solar_power config.SOLAR_ARRAY_POWER p_eol in
  (p_eol, p_excess, config.SOLAR_ARRAY_POWER).

(** The body of the loop of [run_simulation]; the loop variables are
    [battery_energy], [time_h] and the series [ts]. *)
Fixpoint power_flow_loop (p_solar p_eol : Q) (n_steps : nat)
    (battery_energy time_h : Q) (ts : EPSTimeSeries) : result EPSTimeSeries :=
  match n_steps with
  | O => Ok ts
  | S n =>
      step <- _route_step p_solar p_eol battery_energy
                config.BATTERY_CHARGING_EFFICIENCY config.BATTERY_CAPACITY_WH
                DT_H ;;
      let '(charging_w, shunt_w, battery_energy, _) := step in
      let time_h := time_h + DT_H in
      soc <- py_div battery_energy config.BATTERY_CAPACITY_WH ;;
      power_flow_loop p_solar p_eol n battery_energy time_h
        (append_record ts (py_round time_h 10) p_solar p_eol charging_w
           shunt_w battery_energy soc)
  end.

Definition run_simulation : result EPSTimeSeries :=
  let '(p_eol, _p_excess_analytical, p_solar) := _compute_static_power in
  let ts := mkEPSTimeSeries [] [] [] [] [] [] [] in
  let battery_energy :=
    config.BATTERY_INITIAL_SOC * config.BATTERY_CAPACITY_WH in
  let time_h := 0 in
  ratio <- py_div DURATION_H DT_H ;;
  let n_steps := py_int ratio in
  soc0 <- py_div battery_energy config.BATTERY_CAPACITY_WH ;;
  let ts := append_record ts 0 p_solar p_eol 0 0 battery_energy soc0 in
  power_flow_loop p_solar p_eol (Z.to_nat n_steps) battery_energy time_h ts.

End eps_power_flow_simulation.

(* ------------------------------------------------------------------ *)
(** * simulation_runner.py                                             *)
(* ------------------------------------------------------------------ *)

Module simulation_runner.

Definition DT_H : Q := 1 / 60.
Definition DURATION_H : Q := 1 # 2.
Definition SOC_UPPER_LIMIT : Q := 1.

Definition run_routing (p_excess_w current_soc : Q)
  : result eps_controller.RoutingAllocation :=
  controller <- eps_controller.EPSController_init SOC_UPPER_LIMIT ;;
  eps_controller.route controller p_excess_w current_soc.

Definition run_battery_simulation (p_excess_w : Q)
  : result battery_model.BatteryTimeSeries :=
  model <- battery_model.BatteryModel_init config.BATTERY_CAPACITY_WH
             config.BATTERY_INITIAL_SOC config.BATTERY_CHARGING_EFFICIENCY ;;
  battery_model.simulate model p_excess_w DT_H DURATION_H.

End simulation_runner.

(* ------------------------------------------------------------------ *)
(** * Definitions used to state the properties                          *)
(* ------------------------------------------------------------------ *)

(** [clamp x lo hi], as the docstring of [_route_step] uses the word. *)
Definition clamp (x lo hi : Q) : Q := Qmin (Qmax x lo) hi.

(** The snapshots the Euler loop appends after the ones it starts from,
    when no division fails. *)
Fixpoint euler_tail (self : battery_model.BatteryModel) (p_excess_w dt_h : Q)
    (n_steps : nat) (energy_wh time_h : Q) : list battery_model.BatteryState :=
  match n_steps with
  | O => []
  | S n =>
      let delta_e := battery_model._eta self * p_excess_w * dt_h in
      let energy_wh := battery_model._clamp self (energy_wh + delta_e) in
      let time_h := time_h + dt_h in
      battery_model.mkBatteryState (py_round time_h 10) energy_wh
        (energy_wh / battery_model._capacity_wh self) delta_e
      :: euler_tail self p_excess_w dt_h n energy_wh time_h
  end.

(** The series a successful [simulate] call returns. *)
Definition series_of (self : battery_model.BatteryModel)
    (p_excess_w dt_h duration_h : Q) : battery_model.BatteryTimeSeries :=
  let e0 := battery_model._initial_energy_wh self in
  battery_model.mkBatteryTimeSeries
    (battery_model.mkBatteryState 0 e0 (e0 / battery_model._capacity_wh self) 0
     :: euler_tail self p_excess_w dt_h
          (Z.to_nat (py_int (duration_h / dt_h))) e0 0)
    dt_h duration_h (battery_model._capacity_wh self)
    (battery_model._eta self) p_excess_w.

(** Build a model and run it: [BatteryModel(c, s, eta).simulate(p, dt, T)]. *)
Definition build_and_simulate (capacity_wh initial_soc eta : Q)
    (p_excess_w dt_h duration_h : Q) : result battery_model.BatteryTimeSeries :=
  model <- battery_model.BatteryModel_init capacity_wh initial_soc eta ;;
  battery_model.simulate model p_excess_w dt_h duration_h.

(** The charge scenario of the documentation: 100 Wh, 70 %, eta = 0.9,
    104.19 W for half an hour in one-minute steps. *)
Definition charge_scenario : result battery_model.BatteryTimeSeries :=
  build_and_simulate 100 (7 # 10) (9 # 10) (10419 # 100) (1 # 60) (1 # 2).


(** The recorded time labels of a series. *)
Definition times (ts : battery_model.BatteryTimeSeries) : list Q :=
  map battery_model.time_h (battery_model.steps ts).

(** The energy the Euler loop holds after [k] more steps. *)
Fixpoint euler_energy (self : battery_model.BatteryModel) (p_excess_w dt_h : Q)
    (k : nat) (energy_wh : Q) : Q :=
  match k with
  | O => energy_wh
  | S k' =>
      euler_energy self p_excess_w dt_h k'
        (battery_model._clamp self
           (energy_wh + battery_model._eta self * p_excess_w * dt_h))
  end.

(** The running time of a loop after [k] more additions of [dt_h]. *)
Fixpoint euler_time (dt_h : Q) (k : nat) (time_h : Q) : Q :=
  match k with
  | O => time_h
  | S k' => euler_time dt_h k' (time_h + dt_h)
  end.

(** The stored energies of a series, in order. *)
Definition energies (ts : battery_model.BatteryTimeSeries) : list Q :=
  map battery_model.energy_wh (battery_model.steps ts).

(** Joining two power-flow records list by list. *)
Definition series_app (a b : eps_power_flow_simulation.EPSTimeSeries)
  : eps_power_flow_simulation.EPSTimeSeries :=
  eps_power_flow_simulation.mkEPSTimeSeries
    (eps_power_flow_simulation.time_h a
     ++ eps_power_flow_simulation.time_h b)
    (eps_power_flow_simulation.solar_power_w a
     ++ eps_power_flow_simulation.solar_power_w b)
    (eps_power_flow_simulation.avionics_power_w a
     ++ eps_power_flow_simulation.avionics_power_w b)
    (eps_power_flow_simulation.battery_charging_w a
     ++ eps_power_flow_simulation.battery_charging_w b)
    (eps_power_flow_simulation.shunt_dissipation_w a
     ++ eps_power_flow_simulation.shunt_dissipation_w b)
    (eps_power_flow_simulation.battery_energy_wh a
     ++ eps_power_flow_simulation.battery_energy_wh b)
    (eps_power_flow_simulation.battery_soc a
     ++ eps_power_flow_simulation.battery_soc b).

(** The power-flow record with no entry. *)
Definition empty_series : eps_power_flow_simulation.EPSTimeSeries :=
  eps_power_flow_simulation.mkEPSTimeSeries [] [] [] [] [] [] [].

(** The entries the loop of [run_simulation] appends in [n_steps] rounds,
    when no division fails. *)
Fixpoint power_flow_tail (p_solar p_eol : Q) (n_steps : nat)
    (battery_energy time_h : Q) : eps_power_flow_simulation.EPSTimeSeries :=
  match n_steps with
  | O => empty_series
  | S n =>
      let eta := config.BATTERY_CHARGING_EFFICIENCY in
      let capacity := config.BATTERY_CAPACITY_WH in
      let dt := eps_power_flow_simulation.DT_H in
      let surplus := Qmax (p_solar - p_eol) 0 in
      let charging :=
        Qmin surplus ((capacity - battery_energy) / (eta * dt)) in
      let energy := clamp (battery_energy + eta * charging * dt) 0 capacity in
      let time_h := time_h + dt in
      series_app
        (eps_power_flow_simulation.mkEPSTimeSeries
           [py_round time_h 10] [p_solar] [p_eol] [charging]
           [surplus - charging] [energy] [energy / capacity])
        (power_flow_tail p_solar p_eol n energy time_h)
  end.

(** All seven lists of a power-flow record have [n] entries. *)
Definition aligned (ts : eps_power_flow_simulation.EPSTimeSeries) (n : nat)
  : Prop :=
  List.length (eps_power_flow_simulation.time_h ts) = n
  /\ List.length (eps_power_flow_simulation.solar_power_w ts) = n
  /\ List.length (eps_power_flow_simulation.avionics_power_w ts) = n
  /\ List.length (eps_power_flow_simulation.battery_charging_w ts) = n
  /\ List.length (eps_power_flow_simulation.shunt_dissipation_w ts) = n
  /\ List.length (eps_power_flow_simulation.battery_energy_wh ts) = n
  /\ List.length (eps_power_flow_simulation.battery_soc ts) = n.

(* ------------------------------------------------------------------ *)
(** * The same functions under rounded arithmetic                       *)
(* ------------------------------------------------------------------ *)

(** Every [+], [-], [*] and [/] of a Python float rounds its exact result
    to the nearest float.  The functions below are the source functions
    once more, with each arithmetic operation followed by a rounding
    operator [fl]; comparisons, [min], [max] and [int] do not round.  The
    definitions of the modules above are the instance [fl x = x]. *)

(** The unit roundoff of binary64: half the gap between 1 and the next
    float. *)
Definition unit_roundoff : Q := 1 # 9007199254740992.

(** The laws of a rounding operator that the proofs use: it respects
    equality, is monotone, leaves its own results alone, keeps 0, does not
    flush a positive number to 0, has a relative error of at most the unit
    roundoff, and leaves the integers up to [2 ^ 53] alone. *)
Record rounding_laws (fl : Q -> Q) : Prop := mk_rounding_laws {
  fl_compat : forall x y, x == y -> fl x == fl y;
  fl_mono : forall x y, x <= y -> fl x <= fl y;
  fl_idem : forall x, fl (fl x) == fl x;
  fl_zero : fl 0 == 0;
  fl_pos : forall x, 0 < x -> 0 < fl x;
  fl_err : forall x, Qabs (fl x - x) <= unit_roundoff * Qabs x;
  fl_int : forall n : Z,
    (Z.abs n <= 2 ^ 53)%Z -> fl (inject_Z n) == inject_Z n
}.

(** [2 ^ e] for an integer [e] of either sign. *)
Definition pow2 (e : Z) : Q := Qpower 2 e.

(** The exponent [e] with [2 ^ e <= x < 2 ^ (e + 1)], for a positive [x]. *)
Definition binade (x : Q) : Z :=
  let e := (Z.log2 (Qnum x) - Z.log2 (Z.pos (Qden x)))%Z in
  if Qle_bool (pow2 e) x then e else (e - 1)%Z.

(** Rounding of a positive number to 53 significant bits, ties to even. *)
Definition b64_pos (x : Q) : Q :=
  let e := binade x in
  inject_Z (round_half_even (x * pow2 (52 - e))) * pow2 (e - 52).

(** Round-to-nearest-even onto binary64, the arithmetic of a Python float,
    with the exponent left unbounded (no overflow, no subnormal numbers). *)
Definition b64 (x : Q) : Q :=
  Qred match x ?= 0 with
       | Eq => 0
       | Gt => b64_pos x
       | Lt => - b64_pos (- x)
       end.

Module rounded.
Section Arithmetic.
Variable fl : Q -> Q.

(** [x / y] on floats: [ZeroDivisionError] on a zero divisor, the rounded
    quotient otherwise. *)
Definition fdiv (x y : Q) : result Q :=
  if Qeq_bool y 0 then Raise ZeroDivisionError else Ok (fl (x / y)).

(** [BatteryModel.__init__] *)
Definition BatteryModel_init (capacity_wh initial_soc eta : Q)
  : result battery_model.BatteryModel :=
  if Qle_bool capacity_wh 0
  then Raise (ValueError (CapacityNotPositive capacity_wh))
  else if negb (Qle_bool 0 initial_soc && Qle_bool initial_soc 1)
  then Raise (ValueError (InitialSocOutOfRange initial_soc))
  else if negb (Qltb 0 eta && Qle_bool eta 1)
  then Raise (ValueError (EtaOutOfRange eta))
  else Ok (battery_model.mkBatteryModel capacity_wh eta
             (fl (initial_soc * capacity_wh))).

Definition _to_soc (self : battery_model.BatteryModel) (energy_wh : Q)
  : result Q :=
  fdiv energy_wh (battery_model._capacity_wh self).

Definition _clamp (self : battery_model.BatteryModel) (energy_wh : Q) : Q :=
  py_max 0 (py_min (battery_model._capacity_wh self) energy_wh).

(** The loop of [simulate]; [round(time_h, 10)] returns the float nearest
    to the decimal it rounds to. *)
Fixpoint euler_loop (self : battery_model.BatteryModel) (p_excess_w dt_h : Q)
    (n_steps : nat) (energy_wh time_h : Q)
    (steps : list battery_model.BatteryState)
  : result (list battery_model.BatteryState) :=
  match n_steps with
  | O => Ok steps
  | S n =>
      let delta_e := fl (fl (battery_model._eta self * p_excess_w) * dt_h) in
      let new_energy := _clamp self (fl (energy_wh + delta_e)) in
      let time_h := fl (time_h + dt_h) in
      let energy_wh := new_energy in
      soc <- _to_soc self energy_wh ;;
      euler_loop self p_excess_w dt_h n energy_wh time_h
        (steps ++ [battery_model.mkBatteryState (fl (py_round time_h 10))
                     energy_wh soc delta_e])
  end.

(** [BatteryModel.simulate] *)
Definition simulate (self : battery_model.BatteryModel)
    (p_excess_w dt_h duration_h : Q)
  : result battery_model.BatteryTimeSeries :=
  if Qle_bool dt_h 0
  then Raise (ValueError (TimestepNotPositive dt_h))
  else if Qle_bool duration_h 0
  then Raise (ValueError (DurationNotPositive duration_h))
  else if Qltb duration_h dt_h
  then Raise (ValueError (TimestepExceedsDuration dt_h duration_h))
  else
    let energy_wh := battery_model._initial_energy_wh self in
    let time_h := 0 in
    soc0 <- _to_soc self energy_wh ;;
    let steps0 := [battery_model.mkBatteryState time_h energy_wh soc0 0] in
    ratio <- fdiv duration_h dt_h ;;
    let n_steps := py_int ratio in
    steps <- euler_loop self p_excess_w dt_h (Z.to_nat n_steps)
               energy_wh time_h steps0 ;;
    Ok (battery_model.mkBatteryTimeSeries steps dt_h duration_h
          (battery_model._capacity_wh self) (battery_model._eta self)
          p_excess_w).

(** [_route_step] *)
Definition _route_step
    (p_solar_w p_avionics_w battery_energy_wh eta capacity_wh dt_h : Q)
  : result (Q * Q * Q * Q) :=
  let p_excess := fl (p_solar_w - p_avionics_w) in
  let remaining := py_max p_excess 0 in
  let e_headroom_wh := fl (capacity_wh - battery_energy_wh) in
  p_charge_max <-
    (if Qltb 0 dt_h then fdiv e_headroom_wh (fl (eta * dt_h)) else Ok 0) ;;
  let battery_charging_w := py_min remaining p_charge_max in
  let remaining := fl (remaining - battery_charging_w) in
  let shunt_w := remaining in
  let delta_e := fl (fl (eta * battery_charging_w) * dt_h) in
  let new_energy :=
    py_min (py_max (fl (battery_energy_wh + delta_e)) 0) capacity_wh in
  Ok (battery_charging_w, shunt_w, new_energy, p_excess).

(** [compute_eol_power] *)
Definition compute_eol_power (p_nominal_w alpha : Q) : Q :=
  fl (p_nominal_w * fl (1 + alpha)).

(** [compute_power_margin] *)
Definition compute_power_margin (p_eps_max_w p_nominal_w : Q)
  : power_model.PowerMargin :=
  let margin := fl (p_eps_max_w - p_nominal_w) in
  power_model.mkPowerMargin margin (Qle_bool 0 margin).

(** [compute_battery_remaining_energy] *)
Definition compute_battery_remaining_energy (e_battery_wh soc : Q)
  : result Q :=
  if negb (Qle_bool 0 soc && Qle_bool soc 1)
  then Raise (ValueError (StateOfChargeOutOfRange soc))
  else Ok (fl (e_battery_wh * fl (1 - soc))).

(** [compute_charging_time] *)
Definition compute_charging_time (e_remaining_wh p_excess_w eta : Q)
  : result Q :=
  if negb (Qltb 0 eta && Qle_bool eta 1)
  then Raise (ValueError (EtaOutOfRange eta))
  else if Qle_bool p_excess_w 0
  then Raise (ValueError (ExcessPowerNotPositive p_excess_w))
  else
    let p_charge_w := fl (p_excess_w * eta) in
    fdiv e_remaining_wh p_charge_w.

(** The snapshots the loop of [simulate] appends after the ones it starts
    from, when no division fails. *)
Fixpoint euler_tail (self : battery_model.BatteryModel) (p_excess_w dt_h : Q)
    (n_steps : nat) (energy_wh time_h : Q) : list battery_model.BatteryState :=
  match n_steps with
  | O => []
  | S n =>
      let delta_e := fl (fl (battery_model._eta self * p_excess_w) * dt_h) in
      let energy_wh := _clamp self (fl (energy_wh + delta_e)) in
      let time_h := fl (time_h + dt_h) in
      battery_model.mkBatteryState (fl (py_round time_h 10)) energy_wh
        (fl (energy_wh / battery_model._capacity_wh self)) delta_e
      :: euler_tail self p_excess_w dt_h n energy_wh time_h
  end.

(** The body of the loop of [run_simulation]; the efficiency 0.90 and the
    timestep [1.0 / 60.0] are the floats nearest to 9/10 and 1/60. *)
Fixpoint power_flow_loop (p_solar p_eol : Q) (n_steps : nat)
    (battery_energy time_h : Q) (ts : eps_power_flow_simulation.EPSTimeSeries)
  : result eps_power_flow_simulation.EPSTimeSeries :=
  match n_steps with
  | O => Ok ts
  | S n =>
      step <- _route_step p_solar p_eol battery_energy
                (fl config.BATTERY_CHARGING_EFFICIENCY)
                config.BATTERY_CAPACITY_WH
                (fl eps_power_flow_simulation.DT_H) ;;
      let '(charging_w, shunt_w, battery_energy, _) := step in
      let time_h := fl (time_h + fl eps_power_flow_simulation.DT_H) in
      soc <- fdiv battery_energy config.BATTERY_CAPACITY_WH ;;
      power_flow_loop p_solar p_eol n battery_energy time_h
        (eps_power_flow_simulation.append_record ts
           (fl (py_round time_h 10)) p_solar p_eol charging_w shunt_w
           battery_energy soc)
  end.

End Arithmetic.
End rounded.

(** The battery of the documentation, built and run in binary64. *)
Definition binary64_run (p_excess_w dt_h duration_h : Q)
  : result battery_model.BatteryTimeSeries :=
  model <- rounded.BatteryModel_init b64 100 (b64 (7 # 10)) (b64 (9 # 10)) ;;
  rounded.simulate b64 model p_excess_w dt_h duration_h.

(* ------------------------------------------------------------------ *)
(** * Facts about the runtime operations                               *)
(* ------------------------------------------------------------------ *)

Lemma Qle_bool_false (x y : Q) : Qle_bool x y = false <-> y < x.
Proof.
  split; intro H.
  - apply Qnot_le_lt. intro Hle. apply Qle_bool_iff in Hle. congruence.
  - destruct (Qle_bool x y) eqn:E; [|reflexivity].
    apply Qle_bool_iff in E. lra.
Qed.

Lemma Qltb_iff (x y : Q) : Qltb x y = true <-> x < y.
Proof.
  unfold Qltb. rewrite negb_true_iff. apply Qle_bool_false.
Qed.

Lemma Qltb_false (x y : Q) : Qltb x y = false <-> y <= x.
Proof.
  unfold Qltb. rewrite negb_false_iff. apply Qle_bool_iff.
Qed.

Lemma Qeq_bool_false (x y : Q) : Qeq_bool x y = false <-> ~ x == y.
Proof.
  split; intro H.
  - intro E. apply Qeq_bool_iff in E. congruence.
  - destruct (Qeq_bool x y) eqn:E; [|reflexivity].
    apply Qeq_bool_iff in E. contradiction.
Qed.

(** Turn every boolean comparison among the hypotheses into its order fact. *)
Ltac reflect_cmp :=
  repeat match goal with
    | H : negb _ = true |- _ => apply negb_true_iff in H
    | H : negb _ = false |- _ => apply negb_false_iff in H
    | H : (_ && _)%bool = true |- _ => apply andb_true_iff in H; destruct H
    | H : (_ && _)%bool = false |- _ => apply andb_false_iff in H
    | H : Qle_bool _ _ = true |- _ => apply Qle_bool_iff in H
    | H : Qle_bool _ _ = false |- _ => apply Qle_bool_false in H
    | H : Qltb _ _ = true |- _ => apply Qltb_iff in H
    | H : Qltb _ _ = false |- _ => apply Qltb_false in H
    | H : Qeq_bool _ _ = true |- _ => apply Qeq_bool_iff in H
    | H : Qeq_bool _ _ = false |- _ => apply Qeq_bool_false in H
    end.

(** Split on the boolean test a conditional of the goal scrutinises. *)
Ltac case_test :=
  match goal with
  | |- context [if ?b then _ else _] =>
      let E := fresh "E" in destruct b eqn:E; reflect_cmp
  end.

Lemma py_div_ok (x y : Q) : ~ y == 0 -> py_div x y = Ok (x / y).
Proof.
  intro H. unfold py_div. apply Qeq_bool_false in H. now rewrite H.
Qed.

Lemma py_div_zero (x y : Q) : y == 0 -> py_div x y = Raise ZeroDivisionError.
Proof.
  intro H. unfold py_div. apply Qeq_bool_iff in H. now rewrite H.
Qed.

Lemma closed_range_test (x : Q) :
  negb (Qle_bool 0 x && Qle_bool x 1) = false <-> 0 <= x /\ x <= 1.
Proof.
  rewrite negb_false_iff, andb_true_iff, !Qle_bool_iff. tauto.
Qed.

Lemma half_open_range_test (x : Q) :
  negb (Qltb 0 x && Qle_bool x 1) = false <-> 0 < x /\ x <= 1.
Proof.
  rewrite negb_false_iff, andb_true_iff, Qltb_iff, Qle_bool_iff. tauto.
Qed.

(* ------------------------------------------------------------------ *)
(** * Properties of eps/power_model.py                                  *)
(* ------------------------------------------------------------------ *)

Section ChargingTime.
Import power_model.

(** C9.  [compute_charging_time] raises [ValueError] exactly when [eta] lies
    outside (0, 1] or [p_excess_w <= 0]; for [eta] in (0, 1] and a positive
    [p_excess_w] it returns [e_remaining_wh / (eta * p_excess_w)]. *)
Theorem compute_charging_time_spec (e_remaining_wh p_excess_w eta : Q) :
  ((exists m, compute_charging_time e_remaining_wh p_excess_w eta
              = Raise (ValueError m))
   <-> (~ (0 < eta /\ eta <= 1) \/ p_excess_w <= 0))
  /\ (0 < eta /\ eta <= 1 -> 0 < p_excess_w ->
      exists t, compute_charging_time e_remaining_wh p_excess_w eta = Ok t
                /\ t == e_remaining_wh / (eta * p_excess_w)).
Proof.
  unfold compute_charging_time. split.
  - split.
    + intros [m Hm]. revert Hm.
      case_test; [intros _; left; intros [? ?]|].
      { destruct E; reflect_cmp; lra. }
      case_test; [intros _; now right|].
      rewrite py_div_ok by nra. discriminate.
    + intros Hbad.
      case_test; [eauto|]. case_test; [eauto|].
      exfalso. destruct Hbad as [Hbad|Hbad]; [apply Hbad; split|]; lra.
  - intros [Hlo Hhi] Hp.
    case_test; [destruct E; reflect_cmp; lra|].
    case_test; [lra|].
    rewrite py_div_ok by nra.
    eexists; split; [reflexivity|].
    now rewrite (Qmult_comm p_excess_w eta).
Qed.

Lemma compute_charging_time_spec_witness :
  exists t, compute_charging_time 30 (10419 # 100) (9 # 10) = Ok t
            /\ t == 30 / ((9 # 10) * (10419 # 100)).
Proof.
  destruct (compute_charging_time_spec 30 (10419 # 100) (9 # 10)) as [_ H].
  apply H; [split|]; reflexivity || discriminate.
Defined.

End ChargingTime.

(* ------------------------------------------------------------------ *)
(** * Properties of eps/eps_controller.py                               *)
(* ------------------------------------------------------------------ *)

Section Routing.
Import eps_controller.

Lemma EPSController_init_ok (soc_upper_limit : Q) (ctrl : EPSController) :
  EPSController_init soc_upper_limit = Ok ctrl <->
  (0 < soc_upper_limit /\ soc_upper_limit <= 1)
  /\ ctrl = mkEPSController soc_upper_limit.
Proof.
  unfold EPSController_init.
  destruct (negb _) eqn:E.
  - split; [discriminate|]. intros [Hr _].
    apply half_open_range_test in Hr. congruence.
  - apply half_open_range_test in E. split.
    + intros [= <-]. now split.
    + now intros [_ ->].
Qed.

(** The two shapes of a successful [route] call. *)
Lemma route_ok_inv (self : EPSController) (p_excess_w current_soc : Q)
    (a : RoutingAllocation) :
  route self p_excess_w current_soc = Ok a ->
  (0 <= current_soc /\ current_soc <= 1) /\
  battery_full a = Qle_bool (_soc_upper_limit self) current_soc /\
  payload_w a = 0 /\ supercap_w a = 0 /\
  ((p_excess_w <= 0 /\ battery_charge_w a = 0 /\ shunt_w a = 0) \/
   (0 < p_excess_w /\
    battery_charge_w a = (if battery_full a then 0 else p_excess_w) /\
    shunt_w a = p_excess_w - battery_charge_w a - 0 - 0)).
Proof.
  unfold route. destruct (negb _) eqn:Hsoc; [discriminate|].
  apply closed_range_test in Hsoc.
  destruct (Qle_bool p_excess_w 0) eqn:Hp; reflect_cmp;
    intros [= <-]; cbn; repeat split; try tauto;
    right; repeat split; assumption.
Qed.

Lemma route_returns (self : EPSController) (p_excess_w current_soc : Q) :
  0 <= current_soc /\ current_soc <= 1 ->
  exists a, route self p_excess_w current_soc = Ok a.
Proof.
  intro Hsoc. apply closed_range_test in Hsoc.
  unfold route. rewrite Hsoc.
  destruct (Qle_bool p_excess_w 0); eauto.
Qed.

(** C1.  A router built with [soc_upper_limit] in (0, 1] answers every call
    whose [current_soc] is in [0, 1]; for a positive excess the four sink
    outputs add up to the excess, and for a zero or negative excess all
    four are 0. *)
Theorem route_allocation_conservation (soc_upper_limit : Q) :
  0 < soc_upper_limit /\ soc_upper_limit <= 1 ->
  exists ctrl, EPSController_init soc_upper_limit = Ok ctrl /\
  forall p_excess_w current_soc : Q,
    0 <= current_soc /\ current_soc <= 1 ->
    exists a, route ctrl p_excess_w current_soc = Ok a /\
      (0 < p_excess_w ->
       battery_charge_w a + payload_w a + supercap_w a + shunt_w a
       == p_excess_w) /\
      (p_excess_w <= 0 ->
       battery_charge_w a = 0 /\ payload_w a = 0 /\
       supercap_w a = 0 /\ shunt_w a = 0).
Proof.
  intro Hlim. exists (mkEPSController soc_upper_limit). split.
  { now apply EPSController_init_ok. }
  intros p_excess_w current_soc Hsoc.
  destruct (route_returns (mkEPSController soc_upper_limit) p_excess_w
              current_soc Hsoc) as [a Ha].
  exists a. split; [exact Ha|].
  destruct (route_ok_inv _ _ _ _ Ha)
    as (_ & _ & Hpay & Hcap & [(Hp & Hb & Hs) | (Hp & Hb & Hs)]).
  - split; [lra | tauto].
  - split; [| lra]. intros _. rewrite Hpay, Hcap, Hs. ring.
Qed.

Lemma route_allocation_conservation_witness :
  exists ctrl, EPSController_init 1 = Ok ctrl /\
  exists a, route ctrl (10419 # 100) (7 # 10) = Ok a /\
    battery_charge_w a + payload_w a + supercap_w a + shunt_w a
    == 10419 # 100.
Proof.
  destruct (route_allocation_conservation 1) as [ctrl [Hc Hr]].
  { split; reflexivity || discriminate. }
  exists ctrl. split; [exact Hc|].
  destruct (Hr (10419 # 100) (7 # 10)) as [a [Ha [Hpos _]]].
  { split; discriminate. }
  exists a. split; [exact Ha|]. apply Hpos. reflexivity.
Defined.

(** C3 as stated fails: with a deficit the battery share is 0 although the
    state of charge is below the limit. *)
Lemma route_gating_deficit_counterexample :
  exists a, route (mkEPSController 1) (- (10)) (1 # 2) = Ok a /\
    EPSController_init 1 = Ok (mkEPSController 1) /\
    ~ (battery_charge_w a == 0 <-> _soc_upper_limit (mkEPSController 1) <= 1 # 2).
Proof.
  eexists. split; [reflexivity|]. split; [reflexivity|].
  cbn. intros [H _]. specialize (H (Qeq_refl 0)).
  vm_compute in H. now apply H.
Qed.

(** C3, amended.  Whenever [route] returns: a state of charge at or above
    the limit gives a battery share of 0; for a positive excess the battery
    share is 0 exactly when the state of charge is at or above the limit
    (and is the whole excess otherwise); for a zero or negative excess the
    battery share is 0 whatever the state of charge. *)
Theorem route_battery_full_gating (self : EPSController)
    (p_excess_w current_soc : Q) (a : RoutingAllocation) :
  route self p_excess_w current_soc = Ok a ->
  (_soc_upper_limit self <= current_soc -> battery_charge_w a = 0) /\
  (0 < p_excess_w ->
   (battery_charge_w a == 0 <-> _soc_upper_limit self <= current_soc) /\
   (current_soc < _soc_upper_limit self -> battery_charge_w a = p_excess_w)) /\
  (p_excess_w <= 0 -> battery_charge_w a = 0).
Proof.
  intro Ha.
  destruct (route_ok_inv _ _ _ _ Ha)
    as (_ & Hfull & _ & _ & [(Hp & Hb & _) | (Hp & Hb & _)]).
  - repeat split; intros; try lra; try assumption.
  - rewrite Hfull in Hb.
    destruct (Qle_bool (_soc_upper_limit self) current_soc) eqn:E;
      reflect_cmp; rewrite Hb; repeat split; intros; try lra; try reflexivity.
Qed.

Lemma route_battery_full_gating_witness :
  exists a, route (mkEPSController 1) 50 1 = Ok a /\ battery_charge_w a = 0.
Proof.
  eexists. split; [reflexivity|].
  destruct (route_battery_full_gating (mkEPSController 1) 50 1 _ eq_refl)
    as [Hfull _].
  apply Hfull. vm_compute. discriminate.
Defined.

End Routing.

(* ------------------------------------------------------------------ *)
(** * Rounding and truncation                                           *)
(* ------------------------------------------------------------------ *)

(** [int] of a non-negative float is its floor. *)
Lemma py_int_floor (x : Q) : 0 <= x -> py_int x = Qfloor x.
Proof.
  destruct x as [n d]. unfold Qle, py_int, Qfloor. cbn. intro H.
  apply Z.quot_div_nonneg; lia.
Qed.

(** The result of [round_half_even] is the floor or its successor, and
    which of the two is decided by the fractional part. *)
Lemma round_half_even_cases (x : Q) :
  let f := Qfloor x in
  let r := x - inject_Z f in
  (round_half_even x = f /\ (r < 1 # 2 \/ (r == 1 # 2 /\ Z.even f = true)))
  \/ (round_half_even x = (f + 1)%Z
      /\ (1 # 2 < r \/ (r == 1 # 2 /\ Z.even f = false))).
Proof.
  cbv zeta. unfold round_half_even.
  destruct (Qcompare_spec (x - inject_Z (Qfloor x)) (1 # 2)) as [H|H|H].
  - destruct (Z.even (Qfloor x)) eqn:Ev; [left | right]; tauto.
  - left. tauto.
  - right. tauto.
Qed.

Lemma round_half_even_near (x : Q) :
  x - (1 # 2) <= inject_Z (round_half_even x)
  /\ inject_Z (round_half_even x) <= x + (1 # 2).
Proof.
  pose proof (Qfloor_le x) as Hlo. pose proof (Qlt_floor x) as Hhi.
  rewrite inject_Z_plus in Hhi.
  destruct (round_half_even_cases x) as [[-> H] | [-> H]];
    [| rewrite inject_Z_plus]; destruct H as [H | [H _]];
    change (inject_Z 1) with 1 in *; split; lra.
Qed.

Lemma round_half_even_mono (x y : Q) :
  x <= y -> (round_half_even x <= round_half_even y)%Z.
Proof.
  intro Hxy.
  pose proof (Qfloor_resp_le x y Hxy) as Hf.
  destruct (round_half_even_cases x) as [[-> Hx] | [-> Hx]];
    destruct (round_half_even_cases y) as [[-> Hy] | [-> Hy]]; try lia.
  destruct (Z.eq_dec (Qfloor x) (Qfloor y)) as [Heq | Hne]; [| lia].
  exfalso. rewrite Heq in Hx.
  destruct Hx as [Hx | [Hx Ex]]; destruct Hy as [Hy | [Hy Ey]];
    try lra; congruence.
Qed.


Lemma scale_pos (ndigits : nat) : 0 < inject_Z (10 ^ Z.of_nat ndigits).
Proof.
  change 0 with (inject_Z 0). rewrite <- Zlt_Qlt.
  apply Z.pow_pos_nonneg; lia.
Qed.

Lemma Qdiv_le_mono (a b s : Q) : 0 < s -> a <= b -> a / s <= b / s.
Proof.
  intros Hs Hab. unfold Qdiv. apply Qmult_le_compat_r; [exact Hab|].
  apply Qlt_le_weak, Qinv_lt_0_compat, Hs.
Qed.


(** [round(x, n)] is monotone ... *)
Lemma py_round_mono (x y : Q) (ndigits : nat) :
  x <= y -> py_round x ndigits <= py_round y ndigits.
Proof.
  intro Hxy. unfold py_round. pose proof (scale_pos ndigits) as Hs.
  apply Qdiv_le_mono; [exact Hs|]. rewrite <- Zle_Qle.
  apply round_half_even_mono. nra.
Qed.


Lemma py_round_0 (ndigits : nat) : py_round 0 ndigits == 0.
Proof.
  unfold py_round. pose proof (scale_pos ndigits) as Hs.
  assert (E : 0 * inject_Z (10 ^ Z.of_nat ndigits) == inject_Z 0) by ring.
  assert (R : round_half_even (0 * inject_Z (10 ^ Z.of_nat ndigits)) = 0%Z).
  { destruct (round_half_even_cases (0 * inject_Z (10 ^ Z.of_nat ndigits)))
      as [[-> _] | [_ H]].
    - rewrite (Qfloor_comp _ _ E). apply Qfloor_Z.
    - rewrite (Qfloor_comp _ _ E), Qfloor_Z in H.
      destruct H as [H | [H _]]; lra. }
  rewrite R. field. lra.
Qed.

(* ------------------------------------------------------------------ *)
(** * Properties of eps/battery_model.py                                *)
(* ------------------------------------------------------------------ *)

Section Integrator.
Import battery_model.

Lemma BatteryModel_init_ok (capacity_wh initial_soc eta : Q)
    (model : BatteryModel) :
  BatteryModel_init capacity_wh initial_soc eta = Ok model <->
  (0 < capacity_wh /\ (0 <= initial_soc /\ initial_soc <= 1)
   /\ (0 < eta /\ eta <= 1))
  /\ model = mkBatteryModel capacity_wh eta (initial_soc * capacity_wh).
Proof.
  unfold BatteryModel_init.
  destruct (Qle_bool capacity_wh 0) eqn:Hc; reflect_cmp.
  { split; [discriminate | intros [[? _] _]; lra]. }
  destruct (negb (Qle_bool 0 initial_soc && _)) eqn:Hs.
  { split; [discriminate|]. intros [(_ & Hr & _) _].
    apply closed_range_test in Hr. congruence. }
  destruct (negb (Qltb 0 eta && _)) eqn:He.
  { split; [discriminate|]. intros [(_ & _ & Hr) _].
    apply half_open_range_test in Hr. congruence. }
  apply closed_range_test in Hs. apply half_open_range_test in He.
  split.
  - intros [= <-]. tauto.
  - intros [_ ->]. reflexivity.
Qed.

Lemma clamp_range (self : BatteryModel) (x : Q) :
  0 <= _capacity_wh self ->
  0 <= _clamp self x /\ _clamp self x <= _capacity_wh self.
Proof.
  intro Hc. unfold _clamp, py_max, py_min.
  destruct (Q.min_spec (_capacity_wh self) x) as [[? Hm] | [? Hm]];
    destruct (Q.max_spec 0 (Qmin (_capacity_wh self) x)) as [[? HM] | [? HM]];
    split; lra.
Qed.

Section Loop.
Variable self : BatteryModel.
Variables p_excess_w dt_h : Q.

(** With a non-zero capacity no division in the loop fails, and the loop
    appends exactly [euler_tail]. *)
Lemma euler_loop_ok (n_steps : nat) :
  ~ _capacity_wh self == 0 ->
  forall (energy_wh time_h : Q) (steps : list BatteryState),
    euler_loop self p_excess_w dt_h n_steps energy_wh time_h steps
    = Ok (steps ++ euler_tail self p_excess_w dt_h n_steps energy_wh time_h).
Proof.
  intro Hc. induction n_steps as [| n IH]; intros energy_wh time_h steps.
  - cbn [euler_loop euler_tail]. now rewrite app_nil_r.
  - cbn [euler_loop euler_tail]. unfold _to_soc.
    rewrite py_div_ok by exact Hc. cbn [bind].
    rewrite IH, <- app_assoc. reflexivity.
Qed.

Lemma euler_tail_length (n_steps : nat) (energy_wh time_h : Q) :
  List.length (euler_tail self p_excess_w dt_h n_steps energy_wh time_h) = n_steps.
Proof.
  revert energy_wh time_h.
  induction n_steps as [| n IH]; intros; cbn [euler_tail List.length];
    [reflexivity | now rewrite IH].
Qed.

(** Every appended snapshot holds a clamped energy, the state of charge
    computed from it, and the unclamped increment [eta * p * dt]. *)
Lemma euler_tail_snapshots (n_steps : nat) (e0 t0 : Q) :
  Forall (fun s =>
            (exists x, energy_wh s = _clamp self x)
            /\ soc s = energy_wh s / _capacity_wh self
            /\ delta_e_wh s = _eta self * p_excess_w * dt_h)
    (euler_tail self p_excess_w dt_h n_steps e0 t0).
Proof.
  revert e0 t0.
  induction n_steps as [| n IH]; intros; cbn [euler_tail]; constructor.
  - cbn. eauto.
  - apply IH.
Qed.


End Loop.

Lemma ratio_nonneg (dt_h duration_h : Q) :
  0 < dt_h -> 0 < duration_h -> 0 <= duration_h / dt_h.
Proof.
  intros Hdt Hdur. apply Qle_shift_div_l; [exact Hdt | lra].
Qed.

(** [simulate] succeeds exactly on a positive timestep not above a positive
    duration (and a capacity that can be divided by), and then returns
    [series_of]. *)
Lemma simulate_returns (self : BatteryModel) (p_excess_w dt_h duration_h : Q) :
  ~ _capacity_wh self == 0 ->
  0 < dt_h -> 0 < duration_h -> dt_h <= duration_h ->
  simulate self p_excess_w dt_h duration_h
  = Ok (series_of self p_excess_w dt_h duration_h).
Proof.
  intros Hc Hdt Hdur Hle. unfold simulate.
  case_test; [lra|]. case_test; [lra|]. case_test; [lra|].
  unfold _to_soc. rewrite py_div_ok by exact Hc. cbn [bind].
  rewrite py_div_ok by lra. cbn [bind].
  rewrite euler_loop_ok by exact Hc. reflexivity.
Qed.

Lemma simulate_inv (self : BatteryModel) (p_excess_w dt_h duration_h : Q)
    (ts : BatteryTimeSeries) :
  simulate self p_excess_w dt_h duration_h = Ok ts ->
  (0 < dt_h /\ 0 < duration_h /\ dt_h <= duration_h)
  /\ ~ _capacity_wh self == 0
  /\ ts = series_of self p_excess_w dt_h duration_h.
Proof.
  intro H.
  assert (Hargs : 0 < dt_h /\ 0 < duration_h /\ dt_h <= duration_h).
  { revert H. unfold simulate.
    case_test; [discriminate|]. case_test; [discriminate|].
    case_test; [discriminate|]. tauto. }
  assert (Hc : ~ _capacity_wh self == 0).
  { intro Hz. revert H. unfold simulate.
    case_test; [discriminate|]. case_test; [discriminate|].
    case_test; [discriminate|].
    unfold _to_soc. rewrite (py_div_zero _ _ Hz). discriminate. }
  destruct Hargs as (Hdt & Hdur & Hle).
  rewrite simulate_returns in H by assumption.
  injection H as <-. tauto.
Qed.

(** The number of snapshots of [series_of]. *)
Lemma series_of_length (self : BatteryModel) (p_excess_w dt_h duration_h : Q) :
  0 < dt_h -> 0 < duration_h ->
  Z.of_nat (List.length (steps (series_of self p_excess_w dt_h duration_h)))
  = (Qfloor (duration_h / dt_h) + 1)%Z.
Proof.
  intros Hdt Hdur.
  pose proof (ratio_nonneg dt_h duration_h Hdt Hdur) as Hr.
  unfold series_of. cbn [steps List.length]. rewrite euler_tail_length.
  rewrite (py_int_floor _ Hr).
  pose proof (Qfloor_resp_le 0 (duration_h / dt_h) Hr) as Hf.
  change (Qfloor 0) with 0%Z in Hf. lia.
Qed.

(** C2.  For a model built with a positive capacity, an initial state of
    charge in [0, 1] and an efficiency in (0, 1], every snapshot of every
    series [simulate] returns, the initial one included, stores an energy
    between 0 and the capacity, whatever the sign of the drive power. *)
Theorem simulate_energy_bounds (capacity_wh initial_soc eta : Q)
    (model : BatteryModel) (p_excess_w dt_h duration_h : Q)
    (ts : BatteryTimeSeries) :
  BatteryModel_init capacity_wh initial_soc eta = Ok model ->
  simulate model p_excess_w dt_h duration_h = Ok ts ->
  Forall (fun s => 0 <= energy_wh s /\ energy_wh s <= capacity_wh) (steps ts).
Proof.
  intros Hinit Hsim.
  apply BatteryModel_init_ok in Hinit as [(Hc & [Hs0 Hs1] & _) ->].
  apply simulate_inv in Hsim as (_ & _ & ->).
  unfold series_of. cbn [steps _initial_energy_wh _capacity_wh].
  constructor.
  - cbn [energy_wh]. split; nra.
  - eapply Forall_impl; [| apply euler_tail_snapshots].
    intros s ((x & ->) & _).
    apply (clamp_range (mkBatteryModel capacity_wh eta
                          (initial_soc * capacity_wh)) x).
    cbn. lra.
Qed.

Lemma simulate_energy_bounds_witness :
  exists ts,
    build_and_simulate 100 (7 # 10) (9 # 10) (- (500)) (1 # 4) (1 # 2) = Ok ts
    /\ Forall (fun s => 0 <= energy_wh s /\ energy_wh s <= 100) (steps ts).
Proof.
  eexists. split; [vm_compute; reflexivity|].
  apply (simulate_energy_bounds 100 (7 # 10) (9 # 10)
           (mkBatteryModel 100 (9 # 10) ((7 # 10) * 100))
           (- (500)) (1 # 4) (1 # 2) _ eq_refl).
  vm_compute. reflexivity.
Defined.

(** The three messages [simulate] can raise differ from one another. *)
Lemma simulate_messages_distinct (dt_h duration_h : Q) :
  message_text (TimestepNotPositive dt_h)
    <> message_text (DurationNotPositive duration_h)
  /\ message_text (TimestepNotPositive dt_h)
    <> message_text (TimestepExceedsDuration dt_h duration_h)
  /\ message_text (DurationNotPositive duration_h)
    <> message_text (TimestepExceedsDuration dt_h duration_h).
Proof.
  repeat split; discriminate.
Qed.






(** Decide a property of every element of a concrete list by running a
    boolean test over it. *)
Lemma Forall_by_test {A : Type} (P : A -> Prop) (f : A -> bool) (l : list A) :
  (forall x, f x = true -> P x) -> forallb f l = true -> Forall P l.
Proof.
  intros Hf Hall. apply Forall_forall. intros x Hx.
  apply Hf. rewrite forallb_forall in Hall. now apply Hall.
Qed.

(** C4 as stated fails in its last part: the battery is full at step 20,
    yet step 21 still records the increment [eta * p * dt], not 0. *)
Lemma charge_scenario_delta_counterexample :
  exists ts s20 s21,
    charge_scenario = Ok ts
    /\ nth_error (steps ts) 20 = Some s20
    /\ nth_error (steps ts) 21 = Some s21
    /\ energy_wh s20 == 100
    /\ ~ delta_e_wh s21 == 0.
Proof.
  do 3 eexists. split; [vm_compute; reflexivity|].
  split; [reflexivity|]. split; [reflexivity|].
  split; [reflexivity|]. intro H. vm_compute in H. discriminate.
Qed.

(** C4, amended.  In the charge scenario the step-0 snapshot stores 70 Wh
    at a state of charge of 0.70 with increment 0; the battery is below
    100 Wh in snapshots 0 to 19 and first holds 100 Wh in snapshot 20, whose
    time label lies strictly before 0.5 h; it stays at 100 Wh in every later
    snapshot; and every snapshot after step 0, those after the battery is
    full included, records the unclamped increment
    [eta * p_excess_w * dt_h] = 1.56285 Wh. *)
Theorem charge_scenario_trace :
  exists ts, charge_scenario = Ok ts
    /\ List.length (steps ts) = 31%nat
    /\ (exists s0, nth_error (steps ts) 0 = Some s0
          /\ time_h s0 = 0 /\ energy_wh s0 == 70 /\ soc s0 == 7 # 10
          /\ delta_e_wh s0 = 0)
    /\ (exists s20, nth_error (steps ts) 20 = Some s20
          /\ energy_wh s20 == 100 /\ time_h s20 < 1 # 2)
    /\ Forall (fun s => energy_wh s < 100) (firstn 20 (steps ts))
    /\ Forall (fun s => energy_wh s == 100) (skipn 20 (steps ts))
    /\ Forall (fun s => delta_e_wh s == (9 # 10) * (10419 # 100) * (1 # 60)
                        /\ delta_e_wh s == 31257 # 20000)
         (skipn 1 (steps ts)).
Proof.
  eexists. split; [vm_compute; reflexivity|].
  split; [reflexivity|].
  split. { eexists. split; [reflexivity|]. repeat split; reflexivity. }
  split. { eexists. split; [reflexivity|]. split; reflexivity. }
  split.
  { apply (Forall_by_test _ (fun s => Qltb (energy_wh s) 100)).
    - intros s Hs. now apply Qltb_iff.
    - vm_compute. reflexivity. }
  split.
  { apply (Forall_by_test _ (fun s => Qeq_bool (energy_wh s) 100)).
    - intros s Hs. now apply Qeq_bool_iff.
    - vm_compute. reflexivity. }
  apply (Forall_by_test _
           (fun s => Qeq_bool (delta_e_wh s) (31257 # 20000))).
  - intros s Hs. apply Qeq_bool_iff in Hs. split; [|exact Hs].
    rewrite Hs. reflexivity.
  - vm_compute. reflexivity.
Qed.

End Integrator.

(* ------------------------------------------------------------------ *)
(** * Properties of eps_power_flow_simulation.py                        *)
(* ------------------------------------------------------------------ *)

Section CoupledStep.
Import eps_power_flow_simulation.

(** What [_route_step] computes when its division is defined. *)
Lemma route_step_returns
    (p_solar_w p_avionics_w battery_energy_wh eta capacity_wh dt_h : Q) :
  0 < dt_h -> 0 < eta ->
  let s := Qmax (p_solar_w - p_avionics_w) 0 in
  let charging :=
    Qmin s ((capacity_wh - battery_energy_wh) / (eta * dt_h)) in
  _route_step p_solar_w p_avionics_w battery_energy_wh eta capacity_wh dt_h
  = Ok (charging, s - charging,
        clamp (battery_energy_wh + eta * charging * dt_h) 0 capacity_wh,
        p_solar_w - p_avionics_w).
Proof.
  intros Hdt Heta. cbv zeta. unfold _route_step.
  rewrite (proj2 (Qltb_iff _ _) Hdt).
  rewrite py_div_ok by nra. reflexivity.
Qed.

(** C10.  With a stored energy in [0, capacity], a positive timestep and an
    efficiency in (0, 1], a solar power not above the avionics load makes
    [_route_step] return charging power 0, shunt power 0 and the stored
    energy it was given: a deficit does not discharge the battery. *)
Theorem route_step_deficit_noop
    (p_solar_w p_avionics_w battery_energy_wh eta capacity_wh dt_h : Q) :
  0 <= battery_energy_wh /\ battery_energy_wh <= capacity_wh ->
  0 < dt_h -> 0 < eta /\ eta <= 1 ->
  p_solar_w <= p_avionics_w ->
  exists battery_charging_w shunt_w new_energy p_excess,
    _route_step p_solar_w p_avionics_w battery_energy_wh eta capacity_wh dt_h
    = Ok (battery_charging_w, shunt_w, new_energy, p_excess)
    /\ battery_charging_w == 0
    /\ shunt_w == 0
    /\ new_energy == battery_energy_wh.
Proof.
  intros [Hlo Hhi] Hdt [Heta _] Hdeficit.
  do 4 eexists. split; [now apply route_step_returns|].
  assert (Hs : Qmax (p_solar_w - p_avionics_w) 0 == 0).
  { destruct (Q.max_spec (p_solar_w - p_avionics_w) 0) as [[_ ->] | [? ->]];
      lra. }
  assert (Hroom : 0 <= (capacity_wh - battery_energy_wh) / (eta * dt_h)).
  { apply Qle_shift_div_l; nra. }
  assert (Hc : Qmin (Qmax (p_solar_w - p_avionics_w) 0)
                 ((capacity_wh - battery_energy_wh) / (eta * dt_h)) == 0).
  { destruct (Q.min_spec (Qmax (p_solar_w - p_avionics_w) 0)
                ((capacity_wh - battery_energy_wh) / (eta * dt_h)))
      as [[? ->] | [? ->]]; lra. }
  split; [exact Hc|]. split; [lra|].
  unfold clamp. rewrite Hc.
  destruct (Q.max_spec (battery_energy_wh + eta * 0 * dt_h) 0)
    as [[? HM] | [? HM]];
    destruct (Q.min_spec (Qmax (battery_energy_wh + eta * 0 * dt_h) 0)
                capacity_wh) as [[? Hm] | [? Hm]]; lra.
Qed.

Lemma route_step_deficit_noop_witness :
  exists battery_charging_w shunt_w new_energy p_excess,
    _route_step 50 (758125 # 10000) 70 (9 # 10) 100 (1 # 60)
    = Ok (battery_charging_w, shunt_w, new_energy, p_excess)
    /\ battery_charging_w == 0 /\ shunt_w == 0 /\ new_energy == 70.
Proof.
  apply (route_step_deficit_noop 50 (758125 # 10000) 70 (9 # 10) 100 (1 # 60)).
  - split; vm_compute; discriminate.
  - vm_compute. reflexivity.
  - split; vm_compute; [reflexivity | discriminate].
  - vm_compute. discriminate.
Defined.

End CoupledStep.

(* ------------------------------------------------------------------ *)
(** * Further properties of eps/power_model.py                          *)
(* ------------------------------------------------------------------ *)

(** Name every [Qmin] and [Qmax] in sight and split on which argument it
    returns, leaving linear facts. *)
Ltac minmax_cases :=
  repeat match goal with
    | |- context [Qmin ?a ?b] =>
        let m := fresh "m" in
        let H := fresh "Hm" in
        pose proof (Q.min_spec a b) as H;
        set (m := Qmin a b) in *; clearbody m;
        destruct H as [[? ?] | [? ?]]
    | |- context [Qmax ?a ?b] =>
        let m := fresh "m" in
        let H := fresh "Hm" in
        pose proof (Q.max_spec a b) as H;
        set (m := Qmax a b) in *; clearbody m;
        destruct H as [[? ?] | [? ?]]
    | H0 : context [Qmin ?a ?b] |- _ =>
        let m := fresh "m" in
        let H := fresh "Hm" in
        pose proof (Q.min_spec a b) as H;
        set (m := Qmin a b) in *; clearbody m;
        destruct H as [[? ?] | [? ?]]
    | H0 : context [Qmax ?a ?b] |- _ =>
        let m := fresh "m" in
        let H := fresh "Hm" in
        pose proof (Q.max_spec a b) as H;
        set (m := Qmax a b) in *; clearbody m;
        destruct H as [[? ?] | [? ?]]
    end.

Section PowerBudget.
Import power_model.

(** A left-to-right sum of non-negative numbers that starts from a
    non-negative number is not negative. *)
Lemma fold_sum_nonneg (l : list Q) :
  Forall (fun x => 0 <= x) l ->
  forall a, 0 <= a -> 0 <= fold_left Qplus l a.
Proof.
  induction 1 as [| x l Hx _ IH]; intros a Ha; cbn [fold_left].
  - exact Ha.
  - apply IH. lra.
Qed.

(** X1.  [compute_nominal_power] keeps one entry per bus, in order, each
    the product of the bus voltage and current, and the per-bus list of two
    joined bus lists is the two per-bus lists joined; the total of no bus
    is 0, the total of a single bus is the power of that bus, and the total
    of buses that each carry a non-negative power is not negative. *)
Theorem compute_nominal_power_per_bus (buses more : list (Q * Q)) :
  List.length (per_bus_W (compute_nominal_power buses)) = List.length buses
  /\ (forall k v i, nth_error buses k = Some (v, i) ->
        nth_error (per_bus_W (compute_nominal_power buses)) k = Some (v * i))
  /\ P_nominal_W (compute_nominal_power []) = 0
  /\ per_bus_W (compute_nominal_power (buses ++ more))
     = per_bus_W (compute_nominal_power buses)
       ++ per_bus_W (compute_nominal_power more)
  /\ (forall v i, P_nominal_W (compute_nominal_power [(v, i)]) == v * i)
  /\ (Forall (fun b => 0 <= fst b * snd b) buses ->
      0 <= P_nominal_W (compute_nominal_power buses)).
Proof.
  unfold compute_nominal_power. cbn [per_bus_W P_nominal_W].
  split; [| split; [| split; [| split; [| split]]]].
  - apply length_map.
  - intros k v i Hk.
    now rewrite (map_nth_error _ _ _ Hk).
  - reflexivity.
  - apply map_app.
  - intros v i. unfold py_sum. cbn [map fold_left]. ring.
  - intro Hall. unfold py_sum. apply fold_sum_nonneg; [| apply Qle_refl].
    apply Forall_map. eapply Forall_impl; [| exact Hall].
    intros [v i] H. exact H.
Qed.

Lemma compute_nominal_power_per_bus_witness :
  0 <= P_nominal_W (compute_nominal_power config.POWER_BUSES).
Proof.
  destruct (compute_nominal_power_per_bus config.POWER_BUSES [])
    as (_ & _ & _ & _ & _ & H).
  apply H. repeat constructor; vm_compute; discriminate.
Defined.




End PowerBudget.

(* ------------------------------------------------------------------ *)
(** * Further properties of eps/eps_controller.py                       *)
(* ------------------------------------------------------------------ *)

Section Controller.
Import eps_controller.

(** X6.  The constructor of [EPSController] raises [ValueError] for every
    limit outside (0, 1]; for a limit inside it returns a controller whose
    [soc_upper_limit] property reads the limit back. *)
Theorem EPSController_init_spec (limit : Q) :
  (~ (0 < limit /\ limit <= 1) ->
   EPSController_init limit
   = Raise (ValueError (SocUpperLimitOutOfRange limit)))
  /\ (0 < limit /\ limit <= 1 ->
      exists ctrl, EPSController_init limit = Ok ctrl
        /\ soc_upper_limit ctrl = limit).
Proof.
  unfold EPSController_init. destruct (negb _) eqn:E.
  - split; [reflexivity|]. intro Hr. apply half_open_range_test in Hr.
    congruence.
  - apply half_open_range_test in E. split; [tauto|]. intros _.
    eexists. split; reflexivity.
Qed.

Lemma EPSController_init_spec_witness :
  exists ctrl, EPSController_init (95 # 100) = Ok ctrl
    /\ soc_upper_limit ctrl = 95 # 100.
Proof.
  destruct (EPSController_init_spec (95 # 100)) as [_ H].
  apply H. split; vm_compute; [reflexivity | discriminate].
Defined.

(** X7.  [route] checks the state of charge before anything else: outside
    [0, 1] it raises [ValueError] whatever the excess power and the limit
    are, a deficit included, and inside [0, 1] it always returns. *)
Theorem route_soc_guard (self : EPSController) (p_excess current_soc : Q) :
  (~ (0 <= current_soc /\ current_soc <= 1) ->
   route self p_excess current_soc
   = Raise (ValueError (CurrentSocOutOfRange current_soc)))
  /\ (0 <= current_soc /\ current_soc <= 1 ->
      exists a, route self p_excess current_soc = Ok a).
Proof.
  split.
  - intro Hbad. unfold route. destruct (negb _) eqn:E; [reflexivity|].
    apply closed_range_test in E. contradiction.
  - apply route_returns.
Qed.

Lemma route_soc_guard_witness :
  route (mkEPSController 1) (- (10)) (3 # 2)
  = Raise (ValueError (CurrentSocOutOfRange (3 # 2))).
Proof.
  destruct (route_soc_guard (mkEPSController 1) (- (10)) (3 # 2)) as [H _].
  apply H. intros [_ Hle]. vm_compute in Hle. now apply Hle.
Defined.

(** X8.  Every allocation [route] returns echoes the excess it was given,
    leaves the payload and supercapacitor sinks at 0, flags the battery as
    full exactly when the state of charge has reached the limit, and holds
    no negative share; a positive excess goes undivided to the shunt when
    the battery is flagged full and undivided to the battery otherwise. *)
Theorem route_allocation_shape (self : EPSController)
    (p_excess current_soc : Q) (a : RoutingAllocation) :
  route self p_excess current_soc = Ok a ->
  p_excess_w a = p_excess
  /\ payload_w a = 0 /\ supercap_w a = 0
  /\ (battery_full a = true <-> _soc_upper_limit self <= current_soc)
  /\ 0 <= battery_charge_w a /\ 0 <= shunt_w a
  /\ (0 < p_excess ->
      (battery_full a = true ->
       battery_charge_w a = 0 /\ shunt_w a == p_excess)
      /\ (battery_full a = false ->
          battery_charge_w a = p_excess /\ shunt_w a == 0)).
Proof.
  intro Ha.
  assert (Hecho : p_excess_w a = p_excess).
  { revert Ha. unfold route. destruct (negb _); [discriminate|].
    destruct (Qle_bool p_excess 0); intros [= <-]; reflexivity. }
  destruct (route_ok_inv _ _ _ _ Ha)
    as (_ & Hfull & Hpay & Hcap & Hcases).
  split; [exact Hecho|]. split; [exact Hpay|]. split; [exact Hcap|].
  split; [rewrite Hfull; apply Qle_bool_iff|].
  destruct Hcases as [(Hp & Hb & Hs) | (Hp & Hb & Hs)].
  - rewrite Hb, Hs. split; [lra|]. split; [lra|]. intro. lra.
  - destruct (battery_full a); rewrite Hs, Hb.
    + split; [lra|]. split; [lra|]. intros _.
      split; [intros _; split; [reflexivity | ring] | discriminate].
    + split; [lra|]. split; [lra|]. intros _.
      split; [discriminate | intros _; split; [reflexivity | ring]].
Qed.

Lemma route_allocation_shape_witness :
  exists a, route (mkEPSController 1) 50 1 = Ok a
    /\ battery_full a = true /\ shunt_w a == 50.
Proof.
  eexists. split; [reflexivity|].
  destruct (route_allocation_shape (mkEPSController 1) 50 1 _ eq_refl)
    as (_ & _ & _ & _ & _ & _ & Hpos).
  destruct Hpos as [Hfull _]; [vm_compute; reflexivity|].
  split; [reflexivity|]. apply Hfull. reflexivity.
Defined.

(** X9.  [run_routing] of the runner, which fixes the limit at 1, raises
    exactly for a state of charge outside [0, 1]; for a positive excess it
    sends everything to the battery while the state of charge is below 1
    and everything to the shunt once it is 1. *)
Theorem run_routing_spec (p_excess current_soc : Q) :
  (~ (0 <= current_soc /\ current_soc <= 1) ->
   simulation_runner.run_routing p_excess current_soc
   = Raise (ValueError (CurrentSocOutOfRange current_soc)))
  /\ (0 <= current_soc /\ current_soc <= 1 ->
      exists a, simulation_runner.run_routing p_excess current_soc = Ok a
        /\ (0 < p_excess -> current_soc < 1 ->
            battery_charge_w a = p_excess /\ shunt_w a == 0
            /\ battery_full a = false)
        /\ (0 < p_excess -> current_soc == 1 ->
            battery_charge_w a = 0 /\ shunt_w a == p_excess
            /\ battery_full a = true)).
Proof.
  unfold simulation_runner.run_routing.
  change (EPSController_init simulation_runner.SOC_UPPER_LIMIT)
    with (Ok (mkEPSController 1)).
  cbn [bind]. split.
  - intro Hbad. unfold route. destruct (negb _) eqn:E; [reflexivity|].
    apply closed_range_test in E. contradiction.
  - intro Hsoc.
    destruct (route_returns (mkEPSController 1) p_excess current_soc Hsoc)
      as [a Ha].
    exists a. split; [exact Ha|].
    destruct (route_ok_inv _ _ _ _ Ha)
      as (_ & Hfull & _ & _ & [(Hp & _) | (Hp & Hb & Hs)]).
    { split; intros; lra. }
    cbn [_soc_upper_limit] in Hfull. rewrite Hfull in Hb.
    split; intros _ Hcur.
    + assert (E : Qle_bool 1 current_soc = false)
        by (apply Qle_bool_false; lra).
      rewrite E in *. rewrite Hs, Hb. repeat split; try assumption. ring.
    + assert (E : Qle_bool 1 current_soc = true)
        by (apply Qle_bool_iff; lra).
      rewrite E in *. rewrite Hs, Hb. repeat split; try assumption. ring.
Qed.

Lemma run_routing_spec_witness :
  exists a, simulation_runner.run_routing (10419 # 100) (7 # 10) = Ok a
    /\ battery_charge_w a = 10419 # 100 /\ shunt_w a == 0
    /\ battery_full a = false.
Proof.
  destruct (run_routing_spec (10419 # 100) (7 # 10)) as [_ H].
  destruct H as (a & Ha & Hbelow & _).
  - split; vm_compute; discriminate.
  - exists a. split; [exact Ha|]. apply Hbelow; vm_compute; reflexivity.
Defined.

End Controller.

(* ------------------------------------------------------------------ *)
(** * Further properties of eps/battery_model.py                        *)
(* ------------------------------------------------------------------ *)

Section Battery.
Import battery_model.

(** X10.  The constructor of [BatteryModel] checks capacity, initial state
    of charge and efficiency in that order and raises the [ValueError] of
    the first check that fails; when all three pass it stores the capacity,
    the efficiency and the initial energy [initial_soc * capacity_wh], which
    lies between 0 and the capacity. *)
Theorem BatteryModel_init_spec (capacity_wh initial_soc eta : Q) :
  (capacity_wh <= 0 ->
   BatteryModel_init capacity_wh initial_soc eta
   = Raise (ValueError (CapacityNotPositive capacity_wh)))
  /\ (0 < capacity_wh -> ~ (0 <= initial_soc /\ initial_soc <= 1) ->
      BatteryModel_init capacity_wh initial_soc eta
      = Raise (ValueError (InitialSocOutOfRange initial_soc)))
  /\ (0 < capacity_wh -> 0 <= initial_soc /\ initial_soc <= 1 ->
      ~ (0 < eta /\ eta <= 1) ->
      BatteryModel_init capacity_wh initial_soc eta
      = Raise (ValueError (EtaOutOfRange eta)))
  /\ (0 < capacity_wh -> 0 <= initial_soc /\ initial_soc <= 1 ->
      0 < eta /\ eta <= 1 ->
      exists model,
        BatteryModel_init capacity_wh initial_soc eta = Ok model
        /\ _capacity_wh model = capacity_wh /\ _eta model = eta
        /\ _initial_energy_wh model = initial_soc * capacity_wh
        /\ 0 <= _initial_energy_wh model
        /\ _initial_energy_wh model <= capacity_wh).
Proof.
  unfold BatteryModel_init.
  destruct (Qle_bool capacity_wh 0) eqn:Hc; reflect_cmp.
  { split; [reflexivity|]. repeat split; intros; lra. }
  split; [intro; lra|].
  destruct (negb (Qle_bool 0 initial_soc && _)) eqn:Hs.
  { split; [reflexivity|].
    split; intros _ Hr; apply closed_range_test in Hr; congruence. }
  apply closed_range_test in Hs. split; [tauto|].
  destruct (negb (Qltb 0 eta && _)) eqn:He.
  { split; [reflexivity|]. intros _ _ Hr.
    apply half_open_range_test in Hr. congruence. }
  apply half_open_range_test in He. split; [tauto|].
  intros _ _ _. eexists. split; [reflexivity|].
  cbn. repeat split; nra.
Qed.

Lemma BatteryModel_init_spec_witness :
  BatteryModel_init 100 (3 # 2) (9 # 10)
  = Raise (ValueError (InitialSocOutOfRange (3 # 2))).
Proof.
  destruct (BatteryModel_init_spec 100 (3 # 2) (9 # 10)) as (_ & H & _).
  apply H; [vm_compute; reflexivity|].
  intros [_ Hle]. vm_compute in Hle. now apply Hle.
Defined.

Lemma soc_range (x c : Q) :
  0 < c -> 0 <= x /\ x <= c -> 0 <= x / c /\ x / c <= 1.
Proof.
  intros Hc [Hx0 Hx1]. split.
  - apply Qle_shift_div_l; lra.
  - apply Qle_shift_div_r; lra.
Qed.

(** The energies of a returned series stay between 0 and the capacity. *)
Lemma series_of_energy_bounds (self : BatteryModel)
    (p_excess_w dt_h duration_h : Q) :
  0 <= _capacity_wh self ->
  0 <= _initial_energy_wh self /\ _initial_energy_wh self <= _capacity_wh self ->
  Forall (fun s => 0 <= energy_wh s /\ energy_wh s <= _capacity_wh self)
    (steps (series_of self p_excess_w dt_h duration_h)).
Proof.
  intros Hc He. unfold series_of. cbn [steps]. constructor.
  - exact He.
  - eapply Forall_impl; [| apply euler_tail_snapshots].
    intros s ((x & ->) & _). now apply clamp_range.
Qed.

(** X11.  In every series a constructed model returns, each snapshot's
    state of charge is its stored energy divided by the capacity, and lies
    in [0, 1]. *)
Theorem simulate_soc_consistent (capacity_wh initial_soc eta : Q)
    (model : BatteryModel) (p_excess_w dt_h duration_h : Q)
    (ts : BatteryTimeSeries) :
  BatteryModel_init capacity_wh initial_soc eta = Ok model ->
  simulate model p_excess_w dt_h duration_h = Ok ts ->
  Forall (fun s => soc s = energy_wh s / capacity_wh
                   /\ 0 <= soc s /\ soc s <= 1) (steps ts).
Proof.
  intros Hinit Hsim.
  apply BatteryModel_init_ok in Hinit as [(Hc & [Hs0 Hs1] & _) ->].
  apply simulate_inv in Hsim as (_ & _ & ->).
  set (model := mkBatteryModel capacity_wh eta (initial_soc * capacity_wh)).
  assert (Hconsistent :
            Forall (fun s => soc s = energy_wh s / capacity_wh)
              (steps (series_of model p_excess_w dt_h duration_h))).
  { unfold series_of. cbn [steps]. constructor; [reflexivity|].
    eapply Forall_impl; [| apply euler_tail_snapshots].
    intros s (_ & Hs & _). exact Hs. }
  assert (Hbounds : Forall (fun s => 0 <= energy_wh s
                                     /\ energy_wh s <= capacity_wh)
                      (steps (series_of model p_excess_w dt_h duration_h))).
  { apply (series_of_energy_bounds model); cbn; [lra | split; nra]. }
  rewrite Forall_forall in *. intros s Hin.
  specialize (Hconsistent s Hin). specialize (Hbounds s Hin).
  split; [exact Hconsistent|]. rewrite Hconsistent.
  now apply soc_range.
Qed.

Lemma simulate_soc_consistent_witness :
  exists ts,
    build_and_simulate 100 (7 # 10) (9 # 10) 200 (1 # 4) (1 # 2) = Ok ts
    /\ Forall (fun s => soc s = energy_wh s / 100
                        /\ 0 <= soc s /\ soc s <= 1) (steps ts).
Proof.
  eexists. split; [vm_compute; reflexivity|].
  apply (simulate_soc_consistent 100 (7 # 10) (9 # 10)
           (mkBatteryModel 100 (9 # 10) ((7 # 10) * 100))
           200 (1 # 4) (1 # 2) _ eq_refl).
  vm_compute. reflexivity.
Defined.

Section Trajectory.
Variable self : BatteryModel.
Variables p_excess_w dt_h : Q.

Lemma euler_energy_succ (k : nat) (e : Q) :
  euler_energy self p_excess_w dt_h (S k) e
  = _clamp self (euler_energy self p_excess_w dt_h k e
                 + _eta self * p_excess_w * dt_h).
Proof.
  revert e. induction k as [| k IH]; intro e; [reflexivity|].
  change (euler_energy self p_excess_w dt_h (S (S k)) e)
    with (euler_energy self p_excess_w dt_h (S k)
            (_clamp self (e + _eta self * p_excess_w * dt_h))).
  rewrite IH. reflexivity.
Qed.

(** Snapshot [k] of the appended part holds the energy after [k + 1] steps,
    the label of the time after [k + 1] additions, and the increment. *)
Lemma euler_tail_nth (n k : nat) (e t : Q) (s : BatteryState) :
  nth_error (euler_tail self p_excess_w dt_h n e t) k = Some s ->
  energy_wh s = euler_energy self p_excess_w dt_h (S k) e
  /\ battery_model.time_h s = py_round (euler_time dt_h (S k) t) 10
  /\ delta_e_wh s = _eta self * p_excess_w * dt_h.
Proof.
  revert k e t. induction n as [| n IH]; intros k e t.
  - destruct k; discriminate.
  - destruct k as [| k]; cbn [euler_tail nth_error].
    + intros [= <-]. repeat split.
    + intro H. apply IH in H. exact H.
Qed.

(** Snapshot [k] of a series. *)
Lemma series_of_nth (duration_h : Q) (k : nat) (s : BatteryState) :
  nth_error (steps (series_of self p_excess_w dt_h duration_h)) k = Some s ->
  energy_wh s
  = euler_energy self p_excess_w dt_h k (_initial_energy_wh self)
  /\ (k = O /\ battery_model.time_h s = 0 /\ delta_e_wh s = 0
      \/ (0 < k)%nat
         /\ battery_model.time_h s = py_round (euler_time dt_h k 0) 10
         /\ delta_e_wh s = _eta self * p_excess_w * dt_h).
Proof.
  unfold series_of. cbn [steps]. destruct k as [| k]; cbn [nth_error].
  - intros [= <-]. split; [reflexivity|]. left. repeat split.
  - intro H. apply euler_tail_nth in H as (He & Ht & Hd).
    split; [exact He|]. right. repeat split; [lia | exact Ht | exact Hd].
Qed.

End Trajectory.

(** X12.  Consecutive snapshots of a returned series obey the Euler
    recurrence on the recorded values: the later energy is the clamp of the
    earlier energy plus the later snapshot's increment, and that increment
    is [eta * p_excess_w * dt_h] whether or not the clamp cut it. *)
Theorem simulate_recurrence (self : BatteryModel)
    (p_excess_w dt_h duration_h : Q) (ts : BatteryTimeSeries)
    (k : nat) (s s' : BatteryState) :
  simulate self p_excess_w dt_h duration_h = Ok ts ->
  nth_error (steps ts) k = Some s ->
  nth_error (steps ts) (S k) = Some s' ->
  energy_wh s' = _clamp self (energy_wh s + delta_e_wh s')
  /\ delta_e_wh s' = _eta self * p_excess_w * dt_h.
Proof.
  intros Hsim Hs Hs'. apply simulate_inv in Hsim as (_ & _ & ->).
  apply series_of_nth in Hs as [He _].
  apply series_of_nth in Hs' as [He' [[Hk _] | (_ & _ & Hd)]];
    [discriminate|].
  rewrite He', He, Hd. split; [apply euler_energy_succ | reflexivity].
Qed.

Lemma simulate_recurrence_witness :
  exists ts s s',
    simulate (mkBatteryModel 100 (9 # 10) 70) 200 (1 # 4) (1 # 2) = Ok ts
    /\ nth_error (steps ts) 1 = Some s
    /\ nth_error (steps ts) 2 = Some s'
    /\ energy_wh s'
       = _clamp (mkBatteryModel 100 (9 # 10) 70)
           (energy_wh s + delta_e_wh s').
Proof.
  do 3 eexists. split; [vm_compute; reflexivity|].
  split; [reflexivity|]. split; [reflexivity|].
  apply (simulate_recurrence (mkBatteryModel 100 (9 # 10) 70)
           200 (1 # 4) (1 # 2) _ 1%nat _ _ eq_refl eq_refl eq_refl).
Defined.

End Battery.

Section BatteryTrajectory.
Import battery_model.

Section Energy.
Variable self : BatteryModel.
Variables p_excess_w dt_h : Q.
Hypothesis capacity_nonneg : 0 <= _capacity_wh self.

Let delta := _eta self * p_excess_w * dt_h.

(** The appended energies follow any relation that relates an energy in
    range to the clamp of its successor. *)
Lemma euler_tail_energies (R : Q -> Q -> Prop) :
  (forall e, 0 <= e /\ e <= _capacity_wh self ->
             R e (_clamp self (e + delta))) ->
  forall (n : nat) (e t : Q),
    0 <= e /\ e <= _capacity_wh self ->
    Sorted R (e :: map energy_wh (euler_tail self p_excess_w dt_h n e t)).
Proof.
  intros Hstep n. induction n as [| n IH]; intros e t He;
    cbn [euler_tail map energy_wh].
  - repeat constructor.
  - constructor.
    + apply IH. now apply clamp_range.
    + constructor. now apply Hstep.
Qed.

End Energy.

(** X14.  Under a non-negative drive power the stored energies of a series
    never decrease from one snapshot to the next, and under a non-positive
    drive power they never increase. *)
Theorem simulate_energy_monotone (capacity_wh initial_soc eta : Q)
    (model : BatteryModel) (p_excess_w dt_h duration_h : Q)
    (ts : BatteryTimeSeries) :
  BatteryModel_init capacity_wh initial_soc eta = Ok model ->
  simulate model p_excess_w dt_h duration_h = Ok ts ->
  (0 <= p_excess_w -> Sorted Qle (energies ts))
  /\ (p_excess_w <= 0 -> Sorted (fun a b => b <= a) (energies ts)).
Proof.
  intros Hinit Hsim.
  apply BatteryModel_init_ok in Hinit as [(Hc & [Hs0 Hs1] & [He0 He1]) ->].
  apply simulate_inv in Hsim as ((Hdt & _) & _ & ->).
  set (model := mkBatteryModel capacity_wh eta (initial_soc * capacity_wh)).
  assert (Hcap : 0 <= _capacity_wh model) by (cbn; lra).
  assert (Hinit : 0 <= _initial_energy_wh model
                  /\ _initial_energy_wh model <= _capacity_wh model)
    by (cbn; split; nra).
  unfold energies, series_of. cbn [steps map energy_wh].
  split; intro Hp.
  - apply (euler_tail_energies model p_excess_w dt_h Hcap Qle);
      [| exact Hinit].
    intros e [Hlo Hhi].
    assert (Hep : 0 <= eta * p_excess_w) by nra.
    assert (Hd : 0 <= _eta model * p_excess_w * dt_h)
      by (change (_eta model) with eta; nra).
    unfold _clamp, py_max, py_min.
    set (d := _eta model * p_excess_w * dt_h) in *.
    minmax_cases; lra.
  - apply (euler_tail_energies model p_excess_w dt_h Hcap
             (fun a b => b <= a)); [| exact Hinit].
    intros e [Hlo Hhi].
    assert (Hep : eta * p_excess_w <= 0) by nra.
    assert (Hd : _eta model * p_excess_w * dt_h <= 0)
      by (change (_eta model) with eta; nra).
    unfold _clamp, py_max, py_min.
    set (d := _eta model * p_excess_w * dt_h) in *.
    minmax_cases; lra.
Qed.

Lemma simulate_energy_monotone_witness :
  exists ts,
    build_and_simulate 100 (7 # 10) (9 # 10) 200 (1 # 4) (1 # 2) = Ok ts
    /\ Sorted Qle (energies ts).
Proof.
  eexists. split; [vm_compute; reflexivity|].
  refine (proj1 (simulate_energy_monotone 100 (7 # 10) (9 # 10)
                   (mkBatteryModel 100 (9 # 10) ((7 # 10) * 100))
                   200 (1 # 4) (1 # 2) _ _ _) _).
  - reflexivity.
  - vm_compute. reflexivity.
  - vm_compute. discriminate.
Defined.

End BatteryTrajectory.

Section ChargeCurve.
Import battery_model.
Import power_model.

(** X17.  [run_battery_simulation] of the runner cannot raise: for every
    drive power it returns a series of 31 snapshots (one per minute of the
    half hour, plus the initial one) that starts at 70 Wh and keeps every
    stored energy between 0 and 100 Wh. *)
Theorem run_battery_simulation_returns (p_excess_w : Q) :
  exists ts, simulation_runner.run_battery_simulation p_excess_w = Ok ts
    /\ List.length (steps ts) = 31%nat
    /\ (exists s0 rest, steps ts = s0 :: rest /\ energy_wh s0 == 70
          /\ battery_model.time_h s0 = 0)
    /\ Forall (fun s => 0 <= energy_wh s /\ energy_wh s <= 100) (steps ts).
Proof.
  unfold simulation_runner.run_battery_simulation.
  set (model := mkBatteryModel config.BATTERY_CAPACITY_WH
                  config.BATTERY_CHARGING_EFFICIENCY
                  (config.BATTERY_INITIAL_SOC * config.BATTERY_CAPACITY_WH)).
  change (BatteryModel_init config.BATTERY_CAPACITY_WH
            config.BATTERY_INITIAL_SOC config.BATTERY_CHARGING_EFFICIENCY)
    with (Ok model).
  cbn [bind].
  assert (Hdt : 0 < simulation_runner.DT_H) by reflexivity.
  assert (Hdur : 0 < simulation_runner.DURATION_H) by reflexivity.
  rewrite simulate_returns;
    [| cbn; discriminate | exact Hdt | exact Hdur | vm_compute; discriminate].
  eexists. split; [reflexivity|]. split; [| split].
  - pose proof (series_of_length model p_excess_w _ _ Hdt Hdur) as Hlen.
    change (Qfloor (simulation_runner.DURATION_H / simulation_runner.DT_H))
      with 30%Z in Hlen. lia.
  - unfold series_of. cbn [steps]. do 2 eexists.
    split; [reflexivity|]. split; reflexivity.
  - apply (series_of_energy_bounds model); cbn; [discriminate|].
    split; discriminate.
Qed.

End ChargeCurve.

(* ------------------------------------------------------------------ *)
(** * Further properties of eps_power_flow_simulation.py                *)
(* ------------------------------------------------------------------ *)

Section RouteStep.
Import eps_power_flow_simulation.

Variables p_solar_w p_avionics_w battery_energy_wh eta capacity_wh dt_h : Q.

Let surplus := Qmax (p_solar_w - p_avionics_w) 0.
Let fill_rate := (capacity_wh - battery_energy_wh) / (eta * dt_h).

(** X18.  [_route_step] validates nothing: it raises only
    [ZeroDivisionError], and that exactly when the timestep is positive and
    the efficiency is 0.  With a timestep that is not positive the fill
    rate counts as 0, so nothing is charged, the whole surplus is shunted
    and the stored energy is merely clamped. *)
Theorem route_step_edge_cases :
  (0 < dt_h -> eta == 0 ->
   _route_step p_solar_w p_avionics_w battery_energy_wh eta capacity_wh dt_h
   = Raise ZeroDivisionError)
  /\ (0 < dt_h -> ~ eta == 0 ->
      exists r,
        _route_step p_solar_w p_avionics_w battery_energy_wh eta capacity_wh
          dt_h = Ok r)
  /\ (dt_h <= 0 ->
      exists charging shunt energy,
        _route_step p_solar_w p_avionics_w battery_energy_wh eta capacity_wh
          dt_h = Ok (charging, shunt, energy, p_solar_w - p_avionics_w)
        /\ charging == 0
        /\ shunt == Qmax (p_solar_w - p_avionics_w) 0
        /\ energy == clamp battery_energy_wh 0 capacity_wh).
Proof.
  unfold _route_step. split; [| split].
  - intros Hdt Heta. rewrite (proj2 (Qltb_iff _ _) Hdt).
    rewrite py_div_zero; [reflexivity|]. rewrite Heta. ring.
  - intros Hdt Heta. rewrite (proj2 (Qltb_iff _ _) Hdt).
    rewrite py_div_ok; [cbn [bind]; eauto|].
    intro Hz. apply Heta.
    destruct (Qmult_integral _ _ Hz) as [H | H]; [exact H | lra].
  - intro Hdt. rewrite (proj2 (Qltb_false _ _) Hdt). cbn [bind].
    do 3 eexists. split; [reflexivity|]. unfold py_min, py_max, clamp.
    assert (Hc : Qmin (Qmax (p_solar_w - p_avionics_w) 0) 0 == 0)
      by (minmax_cases; lra).
    split; [exact Hc|]. split; [lra|].
    assert (He : battery_energy_wh
                 + eta * Qmin (Qmax (p_solar_w - p_avionics_w) 0) 0 * dt_h
                 == battery_energy_wh) by (rewrite Hc; ring).
    now rewrite He.
Qed.

Hypothesis dt_pos : 0 < dt_h.
Hypothesis eta_pos : 0 < eta.

Lemma fill_rate_fills : eta * fill_rate * dt_h == capacity_wh - battery_energy_wh.
Proof.
  unfold fill_rate. field. split; lra.
Qed.

(** The charging power scaled back to an energy, in either case of the
    minimum. *)
Lemma charged_energy_cases :
  (surplus < fill_rate
   /\ Qmin surplus fill_rate == surplus
   /\ eta * Qmin surplus fill_rate * dt_h == eta * surplus * dt_h
   /\ eta * surplus * dt_h < capacity_wh - battery_energy_wh)
  \/ (fill_rate <= surplus
      /\ Qmin surplus fill_rate == fill_rate
      /\ eta * Qmin surplus fill_rate * dt_h
         == capacity_wh - battery_energy_wh
      /\ capacity_wh - battery_energy_wh <= eta * surplus * dt_h).
Proof.
  pose proof fill_rate_fills as Hfill.
  assert (Hed : 0 < eta * dt_h) by nra.
  destruct (Q.min_spec surplus fill_rate) as [[Hlt E] | [Hle E]].
  - left. split; [exact Hlt|]. split; [exact E|]. split.
    + now rewrite E.
    + assert (Hmul : surplus * (eta * dt_h) < fill_rate * (eta * dt_h))
        by (apply Qmult_lt_compat_r; assumption).
      lra.
  - right. split; [exact Hle|]. split; [exact E|]. split.
    + now rewrite E.
    + assert (Hmul : fill_rate * (eta * dt_h) <= surplus * (eta * dt_h))
        by (apply Qmult_le_compat_r; lra).
      lra.
Qed.

End RouteStep.

Section CoupledStepProperties.
Import eps_power_flow_simulation.

Lemma route_step_edge_cases_witness :
  _route_step 180 75 70 0 100 (1 # 60) = Raise ZeroDivisionError.
Proof.
  destruct (route_step_edge_cases 180 75 70 0 100 (1 # 60)) as [H _].
  apply H; reflexivity.
Defined.

End CoupledStepProperties.

Section CoupledAgainstStandalone.
Import eps_power_flow_simulation.

End CoupledAgainstStandalone.

Section PowerFlowLoop.
Import eps_power_flow_simulation.

Lemma series_app_assoc (a b c : EPSTimeSeries) :
  series_app (series_app a b) c = series_app a (series_app b c).
Proof.
  unfold series_app. cbn. now rewrite <- !app_assoc.
Qed.

Lemma series_app_empty (a : EPSTimeSeries) : series_app a empty_series = a.
Proof.
  destruct a. unfold series_app. cbn. now rewrite !app_nil_r.
Qed.

(** With the efficiency, capacity and timestep of the configuration no
    division of the loop fails, and the loop appends [power_flow_tail]. *)
Lemma power_flow_loop_ok (p_solar p_eol : Q) (n_steps : nat) :
  forall (battery_energy t : Q) (ts : EPSTimeSeries),
    power_flow_loop p_solar p_eol n_steps battery_energy t ts
    = Ok (series_app ts
            (power_flow_tail p_solar p_eol n_steps battery_energy t)).
Proof.
  induction n_steps as [| n IH]; intros battery_energy t ts.
  - cbn [power_flow_loop power_flow_tail]. now rewrite series_app_empty.
  - cbn [power_flow_loop power_flow_tail].
    rewrite route_step_returns by reflexivity. cbn [bind].
    rewrite py_div_ok by discriminate. cbn [bind].
    rewrite IH. cbv zeta. rewrite <- series_app_assoc. reflexivity.
Qed.

Lemma aligned_app (a b : EPSTimeSeries) (m n : nat) :
  aligned a m -> aligned b n -> aligned (series_app a b) (m + n).
Proof.
  unfold aligned, series_app. cbn. rewrite !length_app.
  intros (-> & -> & -> & -> & -> & -> & ->)
         (-> & -> & -> & -> & -> & -> & ->).
  repeat split.
Qed.

Lemma power_flow_tail_aligned (p_solar p_eol : Q) (n_steps : nat) :
  forall battery_energy t,
    aligned (power_flow_tail p_solar p_eol n_steps battery_energy t) n_steps.
Proof.
  induction n_steps as [| n IH]; intros battery_energy t.
  - repeat split.
  - cbn [power_flow_tail]. cbv zeta.
    apply (aligned_app _ _ 1 n); [repeat split | apply IH].
Qed.

Lemma clamp_bounds (x lo hi : Q) :
  lo <= hi -> lo <= clamp x lo hi /\ clamp x lo hi <= hi.
Proof.
  intro H. unfold clamp. minmax_cases; split; lra.
Qed.

End PowerFlowLoop.

Section PowerFlowAgainstBatteryModel.
Import eps_power_flow_simulation.

(** With a surplus, the energy the coupled step leaves is the clamp of one
    Euler step. *)
Lemma coupled_energy_is_euler (p_solar p_eol e eta capacity dt : Q) :
  0 <= e /\ e <= capacity -> 0 < dt -> 0 < eta -> p_eol <= p_solar ->
  clamp (e + eta * Qmin (Qmax (p_solar - p_eol) 0)
                     ((capacity - e) / (eta * dt)) * dt) 0 capacity
  == Qmax 0 (Qmin capacity (e + eta * (p_solar - p_eol) * dt)).
Proof.
  intros [He0 He1] Hdt Heta Hp.
  assert (Hed : 0 < eta * dt) by nra.
  destruct (charged_energy_cases p_solar p_eol e eta capacity dt Hdt Heta)
    as [(_ & _ & Hst & Hroom) | (_ & _ & Hst & Hroom)].
  - assert (Hs : Qmax (p_solar - p_eol) 0 == p_solar - p_eol)
      by (minmax_cases; lra).
    assert (Hd : eta * Qmax (p_solar - p_eol) 0 * dt
                 == eta * (p_solar - p_eol) * dt) by (now rewrite Hs).
    assert (Hpos : 0 <= eta * (p_solar - p_eol) * dt).
    { setoid_replace (eta * (p_solar - p_eol) * dt)
        with ((p_solar - p_eol) * (eta * dt)) by ring. nra. }
    unfold clamp.
    set (d := eta * (p_solar - p_eol) * dt) in *.
    set (ds := eta * Qmax (p_solar - p_eol) 0 * dt) in *.
    set (st := eta * Qmin (Qmax (p_solar - p_eol) 0)
                       ((capacity - e) / (eta * dt)) * dt) in *.
    clearbody d ds st. clear Hs. minmax_cases; lra.
  - assert (Hs : Qmax (p_solar - p_eol) 0 == p_solar - p_eol)
      by (minmax_cases; lra).
    assert (Hd : eta * Qmax (p_solar - p_eol) 0 * dt
                 == eta * (p_solar - p_eol) * dt) by (now rewrite Hs).
    unfold clamp.
    set (d := eta * (p_solar - p_eol) * dt) in *.
    set (ds := eta * Qmax (p_solar - p_eol) 0 * dt) in *.
    set (st := eta * Qmin (Qmax (p_solar - p_eol) 0)
                       ((capacity - e) / (eta * dt)) * dt) in *.
    clearbody d ds st. clear Hs. minmax_cases; lra.
Qed.

(** The energies the two loops append agree, entry by entry. *)
Lemma tail_energies_match (p_solar p_eol initial_energy : Q) (n_steps : nat) :
  p_eol <= p_solar ->
  forall e1 t1 e2 t2,
    e1 == e2 ->
    0 <= e1 /\ e1 <= config.BATTERY_CAPACITY_WH ->
    Forall2 Qeq
      (battery_energy_wh (power_flow_tail p_solar p_eol n_steps e1 t1))
      (map battery_model.energy_wh
         (euler_tail
            (battery_model.mkBatteryModel config.BATTERY_CAPACITY_WH
               config.BATTERY_CHARGING_EFFICIENCY initial_energy)
            (p_solar - p_eol) DT_H n_steps e2 t2)).
Proof.
  intro Hp. induction n_steps as [| n IH]; intros e1 t1 e2 t2 Heq He.
  - constructor.
  - cbn [power_flow_tail euler_tail map]. cbv zeta.
    cbn [series_app battery_energy_wh app battery_model.energy_wh
           battery_model._eta].
    constructor.
    + rewrite coupled_energy_is_euler by (assumption || reflexivity).
      unfold battery_model._clamp, py_max, py_min.
      cbn [battery_model._capacity_wh]. now rewrite Heq.
    + apply IH.
      * rewrite coupled_energy_is_euler by (assumption || reflexivity).
        unfold battery_model._clamp, py_max, py_min.
        cbn [battery_model._capacity_wh]. now rewrite Heq.
      * apply clamp_bounds. discriminate.
Qed.

(** X25.  [run_simulation] cannot raise.  It returns seven aligned lists
    of 31 entries, one per minute of the half hour plus the initial one,
    and its stored energies are, entry by entry, those of
    [run_battery_simulation] driven by the analytical excess power that
    [_compute_static_power] returns. *)
Theorem run_simulation_matches_runner :
  exists ts bts,
    run_simulation = Ok ts
    /\ aligned ts 31
    /\ simulation_runner.run_battery_simulation
         (snd (fst _compute_static_power)) = Ok bts
    /\ Forall2 Qeq (battery_energy_wh ts) (energies bts).
Proof.
  set (model := battery_model.mkBatteryModel config.BATTERY_CAPACITY_WH
                  config.BATTERY_CHARGING_EFFICIENCY
                  (config.BATTERY_INITIAL_SOC * config.BATTERY_CAPACITY_WH)).
  unfold run_simulation, simulation_runner.run_battery_simulation,
    _compute_static_power.
  cbv beta iota zeta. cbn [fst snd].
  set (p_eol := power_model.compute_eol_power _ _).
  assert (Hload : p_eol <= config.SOLAR_ARRAY_POWER)
    by (vm_compute; discriminate).
  rewrite py_div_ok by discriminate. cbn [bind].
  rewrite py_div_ok by discriminate. cbn [bind].
  rewrite power_flow_loop_ok.
  change (battery_model.BatteryModel_init config.BATTERY_CAPACITY_WH
            config.BATTERY_INITIAL_SOC config.BATTERY_CHARGING_EFFICIENCY)
    with (Ok model).
  cbn [bind].
  rewrite simulate_returns;
    [| cbn; discriminate | reflexivity | reflexivity
     | vm_compute; discriminate].
  do 2 eexists. split; [reflexivity|]. split; [| split; [reflexivity|]].
  - apply (aligned_app _ _ 1 30); [repeat split|].
    apply power_flow_tail_aligned.
  - unfold energies, series_of.
    cbn [series_app append_record battery_energy_wh app
           battery_model.steps map battery_model.energy_wh].
    change (Z.to_nat (py_int (simulation_runner.DURATION_H
                              / simulation_runner.DT_H))) with 30%nat.
    change (Z.to_nat (py_int (DURATION_H / DT_H))) with 30%nat.
    constructor; [reflexivity|].
    apply (tail_energies_match config.SOLAR_ARRAY_POWER p_eol _ 30 Hload);
      [reflexivity | split; vm_compute; discriminate].
Qed.

End PowerFlowAgainstBatteryModel.

(* ------------------------------------------------------------------ *)
(** * Binary64 rounding satisfies the rounding laws                     *)
(* ------------------------------------------------------------------ *)

Section Binary64.

Lemma pow2_pos (e : Z) : 0 < pow2 e.
Proof.
  unfold pow2. apply Qpower_0_lt. reflexivity.
Qed.

Lemma pow2_plus (a b : Z) : pow2 (a + b) == pow2 a * pow2 b.
Proof.
  unfold pow2. apply Qpower_plus. discriminate.
Qed.

Lemma pow2_succ (e : Z) : pow2 (e + 1) == 2 * pow2 e.
Proof.
  rewrite pow2_plus. change (pow2 1) with 2. ring.
Qed.

Lemma pow2_le (a b : Z) : (a <= b)%Z -> pow2 a <= pow2 b.
Proof.
  intro H. unfold pow2. apply Qpower_le_compat_l; [exact H | discriminate].
Qed.

Lemma pow2_lt_inv (a b : Z) : pow2 a < pow2 b -> (a < b)%Z.
Proof.
  intro H. unfold pow2 in H.
  apply (Qpower_lt_compat_l_inv 2); [exact H | reflexivity].
Qed.

Lemma pow2_Z (n : Z) : (0 <= n)%Z -> pow2 n == inject_Z (2 ^ n).
Proof.
  intro H. unfold pow2. now rewrite Zpower_Qpower.
Qed.

Lemma Qmake_times_den (x : Q) : x * inject_Z (Z.pos (Qden x)) == inject_Z (Qnum x).
Proof.
  destruct x as [n d]. unfold Qeq, Qmult, inject_Z. cbn.
  rewrite Pos.mul_1_r. ring.
Qed.

(** [binade x] is the exponent of the binade that holds [x]. *)
Lemma binade_spec (x : Q) :
  0 < x -> pow2 (binade x) <= x /\ x < pow2 (binade x + 1).
Proof.
  intro Hx.
  assert (Hn : (0 < Qnum x)%Z).
  { destruct x as [n d]. unfold Qlt in Hx. cbn in *. lia. }
  pose proof (Z.log2_spec (Qnum x) Hn) as [Hn1 Hn2].
  pose proof (Z.log2_spec (Z.pos (Qden x)) (Pos2Z.is_pos _)) as [Hd1 Hd2].
  pose proof (Z.log2_nonneg (Qnum x)) as Ha.
  pose proof (Z.log2_nonneg (Z.pos (Qden x))) as Hb.
  set (a := Z.log2 (Qnum x)) in *.
  set (b := Z.log2 (Z.pos (Qden x))) in *.
  rewrite Zle_Qle in Hn1, Hd1. rewrite Zlt_Qlt in Hn2, Hd2.
  rewrite <- !pow2_Z in Hn1, Hn2, Hd1, Hd2 by lia.
  replace (Z.succ a) with (a + 1)%Z in Hn2 by lia.
  replace (Z.succ b) with (b + 1)%Z in Hd2 by lia.
  rewrite pow2_succ in Hn2, Hd2.
  pose proof (Qmake_times_den x) as Hxd.
  assert (Hab : pow2 (a - b) * pow2 b == pow2 a).
  { rewrite <- pow2_plus. now replace (a - b + b)%Z with a by lia. }
  assert (Hab1 : pow2 (a - b - 1 + 1) == pow2 (a - b))
    by now replace (a - b - 1 + 1)%Z with (a - b)%Z by lia.
  pose proof (pow2_succ (a - b)) as Hs1.
  pose proof (pow2_succ (a - b - 1)) as Hs2. rewrite Hab1 in Hs2.
  pose proof (pow2_pos (a - b)) as Hp. pose proof (pow2_pos b) as Hpb.
  pose proof (pow2_pos (a - b - 1)) as Hp1.
  unfold binade. fold a b.
  set (N := inject_Z (Qnum x)) in *.
  set (D := inject_Z (Z.pos (Qden x))) in *.
  set (A := pow2 a) in *. set (B := pow2 b) in *.
  destruct (Qle_bool (pow2 (a - b)) x) eqn:E; reflect_cmp.
  - split; [exact E|]. rewrite Hs1.
    set (P := pow2 (a - b)) in *. clearbody N D A B P.
    apply Qnot_le_lt. intro Hc. nra.
  - rewrite Hab1. split; [| exact E].
    set (P := pow2 (a - b)) in *. set (P1 := pow2 (a - b - 1)) in *.
    clearbody N D A B P P1.
    apply Qnot_lt_le. intro Hc. nra.
Qed.

Lemma binade_unique (x : Q) (e : Z) :
  0 < x -> pow2 e <= x -> x < pow2 (e + 1) -> binade x = e.
Proof.
  intros Hx Hlo Hhi. destruct (binade_spec x Hx) as [Blo Bhi].
  assert (H1 : (e < binade x + 1)%Z) by (apply pow2_lt_inv; lra).
  assert (H2 : (binade x < e + 1)%Z) by (apply pow2_lt_inv; lra).
  lia.
Qed.

Lemma round_half_even_comp (x y : Q) :
  x == y -> round_half_even x = round_half_even y.
Proof.
  intro H. unfold round_half_even. rewrite (Qfloor_comp x y H).
  assert (E : (x - inject_Z (Qfloor y) ?= 1 # 2)
              = (y - inject_Z (Qfloor y) ?= 1 # 2)).
  { apply Qcompare_comp; [now rewrite H | reflexivity]. }
  now rewrite E.
Qed.

Lemma round_half_even_Z (z : Z) : round_half_even (inject_Z z) = z.
Proof.
  destruct (round_half_even_cases (inject_Z z)) as [[E _] | [_ H]].
  - now rewrite Qfloor_Z in E.
  - rewrite Qfloor_Z in H. destruct H as [H | [H _]]; lra.
Qed.

Lemma pow2_cancel (a b : Z) : pow2 a * pow2 (b - a) == pow2 b.
Proof.
  rewrite <- pow2_plus. now replace (a + (b - a))%Z with b by lia.
Qed.

Section Positive.
Variable x : Q.
Hypothesis x_pos : 0 < x.

Let e := binade x.
Let m := round_half_even (x * pow2 (52 - e)).

Lemma scaled_range :
  pow2 52 <= x * pow2 (52 - e) /\ x * pow2 (52 - e) < pow2 53.
Proof.
  destruct (binade_spec x x_pos) as [Hlo Hhi]. fold e in Hlo, Hhi.
  pose proof (pow2_pos (52 - e)) as Hp.
  pose proof (pow2_cancel e 52) as H52.
  assert (H53 : pow2 (e + 1) * pow2 (52 - e) == pow2 53).
  { rewrite <- pow2_plus. now replace (e + 1 + (52 - e))%Z with 53%Z by lia. }
  set (P := pow2 (52 - e)) in *. set (L := pow2 e) in *.
  set (U := pow2 (e + 1)) in *. clearbody P L U.
  split; nra.
Qed.

Lemma mantissa_range : (2 ^ 52 <= m <= 2 ^ 53)%Z.
Proof.
  destruct scaled_range as [Hlo Hhi].
  rewrite (pow2_Z 52) in Hlo by lia. rewrite (pow2_Z 53) in Hhi by lia.
  unfold m. split.
  - rewrite <- (round_half_even_Z (2 ^ 52)).
    now apply round_half_even_mono.
  - rewrite <- (round_half_even_Z (2 ^ 53)).
    apply round_half_even_mono. lra.
Qed.

Lemma b64_pos_value : b64_pos x = inject_Z m * pow2 (e - 52).
Proof.
  reflexivity.
Qed.

Lemma b64_pos_bounds : pow2 e <= b64_pos x /\ b64_pos x <= pow2 (e + 1).
Proof.
  rewrite b64_pos_value. destruct mantissa_range as [Hlo Hhi].
  rewrite Zle_Qle in Hlo, Hhi.
  rewrite <- (pow2_Z 52) in Hlo by lia. rewrite <- (pow2_Z 53) in Hhi by lia.
  pose proof (pow2_pos (e - 52)) as Hp.
  pose proof (pow2_cancel 52 e) as He.
  assert (He1 : pow2 53 * pow2 (e - 52) == pow2 (e + 1)).
  { rewrite <- pow2_plus. now replace (53 + (e - 52))%Z with (e + 1)%Z by lia. }
  set (M := inject_Z m) in *. set (P := pow2 (e - 52)) in *.
  set (A := pow2 52) in *. set (B := pow2 53) in *.
  clearbody M P A B. split; nra.
Qed.

Lemma b64_pos_positive : 0 < b64_pos x.
Proof.
  pose proof (pow2_pos e). destruct b64_pos_bounds. lra.
Qed.

Lemma b64_pos_scaled_back : b64_pos x * pow2 (52 - e) == inject_Z m.
Proof.
  rewrite b64_pos_value, <- Qmult_assoc, <- pow2_plus.
  replace (e - 52 + (52 - e))%Z with 0%Z by lia.
  change (pow2 0) with 1. ring.
Qed.

Lemma b64_pos_idem : b64_pos (b64_pos x) == b64_pos x.
Proof.
  destruct mantissa_range as [Hlo Hhi].
  destruct b64_pos_bounds as [Blo Bhi].
  destruct (Z.eq_dec m (2 ^ 53)) as [Htop | Hbelow].
  - assert (Hv : b64_pos x == pow2 (e + 1)).
    { rewrite b64_pos_value, Htop, <- (pow2_Z 53), <- pow2_plus by lia.
      now replace (53 + (e - 52))%Z with (e + 1)%Z by lia. }
    assert (Hb : binade (b64_pos x) = (e + 1)%Z).
    { apply binade_unique; [apply b64_pos_positive | lra |].
      rewrite Hv, (pow2_succ (e + 1)). pose proof (pow2_pos (e + 1)). lra. }
    unfold b64_pos at 1. cbv zeta. rewrite Hb.
    assert (Hs : b64_pos x * pow2 (52 - (e + 1)) == inject_Z (2 ^ 52)).
    { rewrite Hv, <- pow2_plus, <- (pow2_Z 52) by lia.
      now replace (e + 1 + (52 - (e + 1)))%Z with 52%Z by lia. }
    rewrite (round_half_even_comp _ _ Hs), round_half_even_Z.
    rewrite Hv, <- (pow2_Z 52), <- pow2_plus by lia.
    now replace (52 + (e + 1 - 52))%Z with (e + 1)%Z by lia.
  - assert (Hb : binade (b64_pos x) = e).
    { apply binade_unique; [apply b64_pos_positive | exact Blo |].
      rewrite b64_pos_value.
      assert (Hm : inject_Z m < pow2 53).
      { rewrite (pow2_Z 53) by lia. rewrite <- Zlt_Qlt. lia. }
      assert (He1 : pow2 53 * pow2 (e - 52) == pow2 (e + 1)).
      { rewrite <- pow2_plus.
        now replace (53 + (e - 52))%Z with (e + 1)%Z by lia. }
      pose proof (pow2_pos (e - 52)) as Hp.
      set (M := inject_Z m) in *. set (P := pow2 (e - 52)) in *.
      set (B := pow2 53) in *. clearbody M P B. nra. }
    unfold b64_pos at 1. cbv zeta. rewrite Hb.
    rewrite (round_half_even_comp _ _ b64_pos_scaled_back), round_half_even_Z.
    reflexivity.
Qed.

End Positive.

Lemma b64_pos_comp (x y : Q) : 0 < x -> x == y -> b64_pos x == b64_pos y.
Proof.
  intros Hx Hxy. assert (Hy : 0 < y) by lra.
  assert (Hb : binade y = binade x).
  { destruct (binade_spec x Hx). apply binade_unique; lra. }
  unfold b64_pos. cbv zeta. rewrite Hb.
  assert (Hs : x * pow2 (52 - binade x) == y * pow2 (52 - binade x))
    by (apply Qmult_comp; [exact Hxy | reflexivity]).
  now rewrite (round_half_even_comp _ _ Hs).
Qed.

Lemma b64_pos_mono (x y : Q) : 0 < x -> x <= y -> b64_pos x <= b64_pos y.
Proof.
  intros Hx Hxy. assert (Hy : 0 < y) by lra.
  destruct (binade_spec x Hx) as [Xlo Xhi].
  destruct (binade_spec y Hy) as [Ylo Yhi].
  assert (Hle : (binade x <= binade y)%Z).
  { assert (binade x < binade y + 1)%Z by (apply pow2_lt_inv; lra). lia. }
  destruct (Z.eq_dec (binade x) (binade y)) as [Heq | Hne].
  - unfold b64_pos. cbv zeta. rewrite <- Heq.
    pose proof (pow2_pos (binade x - 52)) as Hp.
    pose proof (pow2_pos (52 - binade x)) as Hq.
    assert (Hm : (round_half_even (x * pow2 (52 - binade x))
                  <= round_half_even (y * pow2 (52 - binade x)))%Z).
    { apply round_half_even_mono.
      set (P := pow2 (52 - binade x)) in *. clearbody P. nra. }
    rewrite Zle_Qle in Hm.
    apply Qmult_le_compat_r; [exact Hm | lra].
  - destruct (b64_pos_bounds x Hx) as [_ Bx].
    destruct (b64_pos_bounds y Hy) as [By _].
    assert (Hstep : pow2 (binade x + 1) <= pow2 (binade y))
      by (apply pow2_le; lia).
    lra.
Qed.

Lemma b64_of_pos (x : Q) : 0 < x -> b64 x == b64_pos x.
Proof.
  intro Hx. unfold b64. rewrite Qred_correct.
  destruct (Qcompare_spec x 0); [lra | lra | reflexivity].
Qed.

Lemma b64_of_neg (x : Q) : x < 0 -> b64 x == - b64_pos (- x).
Proof.
  intro Hx. unfold b64. rewrite Qred_correct.
  destruct (Qcompare_spec x 0); [lra | reflexivity | lra].
Qed.

Lemma b64_of_zero (x : Q) : x == 0 -> b64 x == 0.
Proof.
  intro Hx. unfold b64. rewrite Qred_correct.
  destruct (Qcompare_spec x 0); [reflexivity | lra | lra].
Qed.

Lemma b64_sign (x : Q) :
  (0 < x -> 0 < b64 x) /\ (x < 0 -> b64 x < 0).
Proof.
  split; intro Hx.
  - rewrite (b64_of_pos x Hx). now apply b64_pos_positive.
  - rewrite (b64_of_neg x Hx).
    assert (0 < b64_pos (- x)) by (apply b64_pos_positive; lra). lra.
Qed.

Lemma unit_roundoff_pow2 : unit_roundoff * pow2 53 == 1.
Proof.
  reflexivity.
Qed.

(** The error of rounding a positive number is at most half a unit in the
    last place, which is at most the unit roundoff times the number. *)
Lemma b64_pos_error (x : Q) :
  0 < x -> Qabs (b64_pos x - x) <= unit_roundoff * x.
Proof.
  intro Hx. destruct (binade_spec x Hx) as [Hlo _].
  pose proof (round_half_even_near (x * pow2 (52 - binade x))) as [Nlo Nhi].
  rewrite (b64_pos_value x).
  set (e := binade x) in *.
  set (M := inject_Z (round_half_even (x * pow2 (52 - e)))) in *.
  pose proof (pow2_cancel (52 - e) 0) as Hc.
  replace (0 - (52 - e))%Z with (e - 52)%Z in Hc by lia.
  change (pow2 0) with 1 in Hc.
  assert (He : pow2 53 * pow2 (e - 53) == pow2 e).
  { rewrite <- pow2_plus. now replace (53 + (e - 53))%Z with e by lia. }
  assert (Hh : pow2 (e - 52) == 2 * pow2 (e - 53)).
  { rewrite <- pow2_succ. now replace (e - 53 + 1)%Z with (e - 52)%Z by lia. }
  pose proof unit_roundoff_pow2 as Hu.
  pose proof (pow2_pos (e - 53)) as Hp.
  pose proof (pow2_pos (52 - e)) as Hq.
  assert (Hu0 : 0 < unit_roundoff) by reflexivity.
  set (P := pow2 (52 - e)) in *. set (P' := pow2 (e - 52)) in *.
  set (H := pow2 (e - 53)) in *. set (L := pow2 e) in *.
  set (B := pow2 53) in *. set (u := unit_roundoff) in *.
  clearbody M P P' H L B u.
  assert (Hux : H <= u * x) by nra.
  apply Qabs_Qle_condition. split; nra.
Qed.

Lemma b64_error (x : Q) : Qabs (b64 x - x) <= unit_roundoff * Qabs x.
Proof.
  destruct (Q_dec x 0) as [[Hx | Hx] | Hx].
  - assert (Hp : 0 < - x) by lra.
    pose proof (b64_pos_error (- x) Hp) as He.
    rewrite (Qabs_neg x) by lra.
    apply Qabs_Qle_condition in He. apply Qabs_Qle_condition.
    rewrite (b64_of_neg x Hx). split; lra.
  - pose proof (b64_pos_error x Hx) as He.
    rewrite (Qabs_pos x) by lra.
    apply Qabs_Qle_condition in He. apply Qabs_Qle_condition.
    rewrite (b64_of_pos x Hx). split; lra.
  - rewrite (b64_of_zero x Hx).
    apply Qabs_Qle_condition. rewrite (Qabs_pos x) by lra.
    assert (Hu0 : 0 < unit_roundoff) by reflexivity.
    set (u := unit_roundoff) in *. clearbody u. split; nra.
Qed.

(** A positive integer of at most 53 bits is a float. *)
Lemma b64_pos_integer (n : Z) :
  (0 < n <= 2 ^ 53)%Z -> b64_pos (inject_Z n) == inject_Z n.
Proof.
  intros [Hlo Hhi].
  assert (Hx : inject_Z 0 < inject_Z n) by (rewrite <- Zlt_Qlt; exact Hlo).
  change (inject_Z 0) with 0 in Hx.
  destruct (binade_spec _ Hx) as [Blo Bhi].
  set (e := binade (inject_Z n)) in *.
  assert (He : (e < 54)%Z).
  { apply pow2_lt_inv.
    assert (inject_Z n < pow2 54).
    { rewrite (pow2_Z 54) by lia. rewrite <- Zlt_Qlt. lia. }
    lra. }
  destruct (Z.eq_dec e 53) as [E53 | Hne].
  - assert (Hn : n = (2 ^ 53)%Z).
    { rewrite E53, (pow2_Z 53) in Blo by lia. rewrite <- Zle_Qle in Blo. lia. }
    subst n. reflexivity.
  - assert (Hs : inject_Z n * pow2 (52 - e) == inject_Z (n * 2 ^ (52 - e))).
    { rewrite inject_Z_mult, (pow2_Z (52 - e)) by lia. reflexivity. }
    rewrite (b64_pos_value (inject_Z n)). fold e.
    rewrite (round_half_even_comp _ _ Hs), round_half_even_Z, <- Hs.
    rewrite <- Qmult_assoc, <- pow2_plus.
    replace (52 - e + (e - 52))%Z with 0%Z by lia.
    change (pow2 0) with 1. ring.
Qed.

Lemma b64_integer (n : Z) :
  (Z.abs n <= 2 ^ 53)%Z -> b64 (inject_Z n) == inject_Z n.
Proof.
  intro Hn.
  destruct (Z.lt_trichotomy n 0) as [Hneg | [-> | Hpos]].
  - assert (Hx : inject_Z n < inject_Z 0) by (rewrite <- Zlt_Qlt; exact Hneg).
    change (inject_Z 0) with 0 in Hx.
    rewrite (b64_of_neg _ Hx).
    assert (Ho : - inject_Z n == inject_Z (- n)) by now rewrite inject_Z_opp.
    assert (Hp : 0 < - inject_Z n) by lra.
    rewrite (b64_pos_comp _ _ Hp Ho), b64_pos_integer by lia.
    rewrite inject_Z_opp. ring.
  - reflexivity.
  - assert (Hx : inject_Z 0 < inject_Z n) by (rewrite <- Zlt_Qlt; exact Hpos).
    change (inject_Z 0) with 0 in Hx.
    rewrite (b64_of_pos _ Hx). apply b64_pos_integer. lia.
Qed.

(** Round-to-nearest-even onto binary64 is a rounding operator. *)
Lemma binary64_laws : rounding_laws b64.
Proof.
  constructor.
  - intros x y Hxy.
    destruct (Q_dec x 0) as [[Hneg | Hpos] | Hz].
    + rewrite (b64_of_neg x Hneg), (b64_of_neg y) by lra.
      rewrite (b64_pos_comp (- x) (- y)); [reflexivity | lra | now rewrite Hxy].
    + rewrite (b64_of_pos x Hpos), (b64_of_pos y) by lra.
      now apply b64_pos_comp.
    + rewrite (b64_of_zero x Hz), (b64_of_zero y) by lra. reflexivity.
  - intros x y Hxy.
    destruct (b64_sign x) as [Xp Xn]. destruct (b64_sign y) as [Yp Yn].
    destruct (Q_dec x 0) as [[Hx | Hx] | Hx].
    + specialize (Xn Hx). clear Xp.
      destruct (Q_dec y 0) as [[Hy | Hy] | Hy].
      * rewrite (b64_of_neg x Hx), (b64_of_neg y Hy).
        assert (b64_pos (- y) <= b64_pos (- x))
          by (apply b64_pos_mono; lra).
        lra.
      * specialize (Yp Hy). lra.
      * rewrite (b64_of_zero y Hy). lra.
    + assert (Hy : 0 < y) by lra.
      rewrite (b64_of_pos x Hx), (b64_of_pos y Hy).
      now apply b64_pos_mono.
    + rewrite (b64_of_zero x Hx).
      destruct (Q_dec y 0) as [[Hy | Hy] | Hy].
      * lra.
      * specialize (Yp Hy). lra.
      * rewrite (b64_of_zero y Hy). lra.
  - intro x. destruct (b64_sign x) as [Xp Xn].
    destruct (Q_dec x 0) as [[Hx | Hx] | Hx].
    + specialize (Xn Hx). rewrite (b64_of_neg (b64 x) Xn).
      rewrite (b64_of_neg x Hx) at 2.
      assert (Hpx : 0 < - x) by lra.
      rewrite (b64_pos_comp (- b64 x) (b64_pos (- x)));
        [| lra | rewrite (b64_of_neg x Hx); ring].
      now rewrite (b64_pos_idem (- x) Hpx).
    + specialize (Xp Hx). rewrite (b64_of_pos (b64 x) Xp).
      rewrite (b64_of_pos x Hx) at 2.
      rewrite (b64_pos_comp (b64 x) (b64_pos x));
        [| lra | now apply b64_of_pos].
      now apply b64_pos_idem.
    + pose proof (b64_of_zero x Hx) as Hz.
      rewrite (b64_of_zero (b64 x) Hz). now symmetry.
  - reflexivity.
  - intros x Hx. now apply b64_sign.
  - exact b64_error.
  - exact b64_integer.
Qed.

End Binary64.

(* ------------------------------------------------------------------ *)
(** * The rounded functions at [fl x = x] are the exact ones            *)
(* ------------------------------------------------------------------ *)

Lemma exact_rounding_laws : rounding_laws (fun x => x).
Proof.
  constructor; intros; try assumption; try reflexivity.
  apply Qabs_Qle_condition.
  assert (Hu0 : 0 < unit_roundoff) by reflexivity.
  pose proof (Qabs_nonneg x).
  set (u := unit_roundoff) in *. set (a := Qabs x) in *. clearbody u a.
  split; nra.
Qed.

Lemma rounded_simulate_exact :
  rounded.simulate (fun x => x) = battery_model.simulate.
Proof.
  reflexivity.
Qed.

Lemma rounded_init_exact :
  rounded.BatteryModel_init (fun x => x) = battery_model.BatteryModel_init.
Proof.
  reflexivity.
Qed.

Lemma rounded_route_step_exact :
  rounded._route_step (fun x => x) = eps_power_flow_simulation._route_step.
Proof.
  reflexivity.
Qed.

(* ------------------------------------------------------------------ *)
(** * Properties that hold under every rounding operator               *)
(* ------------------------------------------------------------------ *)

Section Rounded.
Import battery_model.

Variable fl : Q -> Q.
Hypothesis laws : rounding_laws fl.

Lemma fl_nonneg (x : Q) : 0 <= x -> 0 <= fl x.
Proof.
  intro Hx. rewrite <- (fl_zero fl laws). now apply (fl_mono fl laws).
Qed.

Lemma fdiv_ok (x y : Q) : ~ y == 0 -> rounded.fdiv fl x y = Ok (fl (x / y)).
Proof.
  intro H. unfold rounded.fdiv. apply Qeq_bool_false in H. now rewrite H.
Qed.

Lemma fdiv_zero (x y : Q) :
  y == 0 -> rounded.fdiv fl x y = Raise ZeroDivisionError.
Proof.
  intro H. unfold rounded.fdiv. apply Qeq_bool_iff in H. now rewrite H.
Qed.

Lemma rounded_init_ok (capacity_wh initial_soc eta : Q) (model : BatteryModel) :
  rounded.BatteryModel_init fl capacity_wh initial_soc eta = Ok model <->
  (0 < capacity_wh /\ (0 <= initial_soc /\ initial_soc <= 1)
   /\ (0 < eta /\ eta <= 1))
  /\ model = mkBatteryModel capacity_wh eta (fl (initial_soc * capacity_wh)).
Proof.
  unfold rounded.BatteryModel_init.
  destruct (Qle_bool capacity_wh 0) eqn:Hc; reflect_cmp.
  { split; [discriminate | intros [[? _] _]; lra]. }
  destruct (negb (Qle_bool 0 initial_soc && _)) eqn:Hs.
  { split; [discriminate|]. intros [(_ & Hr & _) _].
    apply closed_range_test in Hr. congruence. }
  destruct (negb (Qltb 0 eta && _)) eqn:He.
  { split; [discriminate|]. intros [(_ & _ & Hr) _].
    apply half_open_range_test in Hr. congruence. }
  apply closed_range_test in Hs. apply half_open_range_test in He.
  split.
  - intros [= <-]. tauto.
  - intros [_ ->]. reflexivity.
Qed.

(** With a capacity that can be divided by, the rounded loop runs to its
    end and appends one snapshot per step. *)
Lemma rounded_loop_returns (self : BatteryModel) (p_excess_w dt_h : Q)
    (n_steps : nat) :
  ~ _capacity_wh self == 0 ->
  forall (energy_wh time_h : Q) (steps : list BatteryState),
  exists tail,
    rounded.euler_loop fl self p_excess_w dt_h n_steps energy_wh time_h steps
    = Ok (steps ++ tail)
    /\ List.length tail = n_steps.
Proof.
  intro Hc. induction n_steps as [| n IH]; intros energy_wh time_h steps.
  - exists []. cbn [rounded.euler_loop]. now rewrite app_nil_r.
  - cbn [rounded.euler_loop]. unfold rounded._to_soc.
    rewrite fdiv_ok by exact Hc. cbn [bind].
    match goal with
    | |- context [rounded.euler_loop fl self p_excess_w dt_h n ?e ?t
                    (steps ++ [?s])] =>
        destruct (IH e t (steps ++ [s])) as (tail & Hrun & Hlen);
        exists (s :: tail)
    end.
    rewrite Hrun, <- app_assoc. split; [reflexivity|].
    cbn [List.length]. now rewrite Hlen.
Qed.

Lemma rounded_ratio_nonneg (dt_h duration_h : Q) :
  0 < dt_h -> 0 < duration_h -> 0 <= fl (duration_h / dt_h).
Proof.
  intros Hdt Hdur. apply fl_nonneg. now apply ratio_nonneg.
Qed.

(** A call with valid arguments on a dividable capacity returns the initial
    snapshot followed by one snapshot per step. *)
Lemma rounded_simulate_returns (self : BatteryModel)
    (p_excess_w dt_h duration_h : Q) :
  ~ _capacity_wh self == 0 ->
  0 < dt_h -> 0 < duration_h -> dt_h <= duration_h ->
  exists soc0 tail,
    rounded.simulate fl self p_excess_w dt_h duration_h
    = Ok (mkBatteryTimeSeries
            (mkBatteryState 0 (_initial_energy_wh self) soc0 0 :: tail)
            dt_h duration_h (_capacity_wh self) (_eta self) p_excess_w)
    /\ Z.of_nat (List.length tail) = Qfloor (fl (duration_h / dt_h)).
Proof.
  intros Hc Hdt Hdur Hle. unfold rounded.simulate.
  case_test; [lra|]. case_test; [lra|]. case_test; [lra|].
  unfold rounded._to_soc. rewrite fdiv_ok by exact Hc. cbn [bind].
  rewrite fdiv_ok by lra. cbn [bind].
  match goal with
  | |- context [rounded.euler_loop fl self p_excess_w dt_h ?n ?e ?t ?s] =>
      destruct (rounded_loop_returns self p_excess_w dt_h n Hc e t s)
        as (tail & Hrun & Hlen)
  end.
  rewrite Hrun. cbn [bind app]. do 2 eexists. split; [reflexivity|].
  rewrite Hlen.
  pose proof (rounded_ratio_nonneg dt_h duration_h Hdt Hdur) as Hq.
  rewrite (py_int_floor _ Hq).
  pose proof (Qfloor_resp_le 0 _ Hq) as Hf.
  change (Qfloor 0) with 0%Z in Hf. lia.
Qed.

(** Which exception the rounded [simulate] raises, in the order of its
    checks. *)
Lemma rounded_simulate_raises (self : BatteryModel)
    (p_excess_w dt_h duration_h : Q) (e : exn) :
  rounded.simulate fl self p_excess_w dt_h duration_h = Raise e ->
  (dt_h <= 0 /\ e = ValueError (TimestepNotPositive dt_h))
  \/ (0 < dt_h /\ duration_h <= 0
      /\ e = ValueError (DurationNotPositive duration_h))
  \/ (0 < dt_h /\ 0 < duration_h /\ duration_h < dt_h
      /\ e = ValueError (TimestepExceedsDuration dt_h duration_h))
  \/ (0 < dt_h /\ 0 < duration_h /\ dt_h <= duration_h
      /\ _capacity_wh self == 0 /\ e = ZeroDivisionError).
Proof.
  destruct (Qlt_le_dec 0 dt_h) as [Hdt | Hdt];
    [destruct (Qlt_le_dec 0 duration_h) as [Hdur | Hdur];
     [destruct (Qlt_le_dec duration_h dt_h) as [Hlt | Hle] |] |].
  - unfold rounded.simulate.
    rewrite (proj2 (Qle_bool_false _ _) Hdt), (proj2 (Qle_bool_false _ _) Hdur),
      (proj2 (Qltb_iff _ _) Hlt).
    intros [= <-]. tauto.
  - destruct (Qeq_dec (_capacity_wh self) 0) as [Hz | Hnz].
    + unfold rounded.simulate.
      rewrite (proj2 (Qle_bool_false _ _) Hdt),
        (proj2 (Qle_bool_false _ _) Hdur), (proj2 (Qltb_false _ _) Hle).
      unfold rounded._to_soc. rewrite (fdiv_zero _ _ Hz). intros [= <-]. tauto.
    + destruct (rounded_simulate_returns self p_excess_w dt_h duration_h
                  Hnz Hdt Hdur Hle) as (soc0 & tail & Hrun & _).
      rewrite Hrun. discriminate.
  - unfold rounded.simulate.
    rewrite (proj2 (Qle_bool_false _ _) Hdt), (proj2 (Qle_bool_iff _ _) Hdur).
    intros [= <-]. tauto.
  - unfold rounded.simulate. rewrite (proj2 (Qle_bool_iff _ _) Hdt).
    intros [= <-]. tauto.
Qed.

Lemma rounded_simulate_inv (self : BatteryModel)
    (p_excess_w dt_h duration_h : Q) (ts : BatteryTimeSeries) :
  rounded.simulate fl self p_excess_w dt_h duration_h = Ok ts ->
  (0 < dt_h /\ 0 < duration_h /\ dt_h <= duration_h)
  /\ ~ _capacity_wh self == 0.
Proof.
  intro H.
  assert (Hargs : 0 < dt_h /\ 0 < duration_h /\ dt_h <= duration_h).
  { revert H. unfold rounded.simulate.
    case_test; [discriminate|]. case_test; [discriminate|].
    case_test; [discriminate|]. tauto. }
  split; [exact Hargs|].
  intro Hz. revert H. unfold rounded.simulate.
  case_test; [discriminate|]. case_test; [discriminate|].
  case_test; [discriminate|].
  unfold rounded._to_soc. rewrite (fdiv_zero _ _ Hz). discriminate.
Qed.



(** C7.  On a constructed model [simulate] raises [ValueError] exactly when
    the timestep is not positive, the duration is not positive, or the
    timestep exceeds the duration; the exception names a condition that is
    violated, each condition has a message of its own, and nothing else is
    ever raised.  A raised call yields no series (a [result] is either one
    or the other); a call that does not raise returns the whole series: the
    initial snapshot and one snapshot for each of the [int] of the float
    quotient [duration_h / dt_h] steps of the loop. *)
Theorem simulate_float_invalid_argument (capacity_wh initial_soc eta : Q)
    (model : BatteryModel) (p_excess_w dt_h duration_h : Q) :
  rounded.BatteryModel_init fl capacity_wh initial_soc eta = Ok model ->
  ((exists m, rounded.simulate fl model p_excess_w dt_h duration_h
              = Raise (ValueError m))
   <-> (dt_h <= 0 \/ duration_h <= 0 \/ duration_h < dt_h))
  /\ (forall e,
        rounded.simulate fl model p_excess_w dt_h duration_h = Raise e ->
        (e = ValueError (TimestepNotPositive dt_h) /\ dt_h <= 0)
        \/ (e = ValueError (DurationNotPositive duration_h)
            /\ duration_h <= 0)
        \/ (e = ValueError (TimestepExceedsDuration dt_h duration_h)
            /\ duration_h < dt_h))
  /\ (message_text (TimestepNotPositive dt_h)
        <> message_text (DurationNotPositive duration_h)
      /\ message_text (TimestepNotPositive dt_h)
        <> message_text (TimestepExceedsDuration dt_h duration_h)
      /\ message_text (DurationNotPositive duration_h)
        <> message_text (TimestepExceedsDuration dt_h duration_h))
  /\ (0 < dt_h -> 0 < duration_h -> dt_h <= duration_h ->
      exists ts,
        rounded.simulate fl model p_excess_w dt_h duration_h = Ok ts
        /\ Z.of_nat (List.length (steps ts))
           = (py_int (fl (duration_h / dt_h)) + 1)%Z
        /\ (0 <= py_int (fl (duration_h / dt_h)))%Z).
Proof.
  intro Hinit.
  apply rounded_init_ok in Hinit as [(Hc & _ & _) ->].
  set (model := mkBatteryModel capacity_wh eta (fl (initial_soc * capacity_wh))).
  assert (Hnz : ~ _capacity_wh model == 0) by (cbn; lra).
  assert (Hraise : forall e,
             rounded.simulate fl model p_excess_w dt_h duration_h = Raise e ->
             (e = ValueError (TimestepNotPositive dt_h) /\ dt_h <= 0)
             \/ (e = ValueError (DurationNotPositive duration_h)
                 /\ duration_h <= 0)
             \/ (e = ValueError (TimestepExceedsDuration dt_h duration_h)
                 /\ duration_h < dt_h)).
  { intros e He. apply rounded_simulate_raises in He.
    destruct He as [He | [He | [He | He]]]; tauto. }
  split; [| split; [| split]].
  - split.
    + intros [m Hm]. apply Hraise in Hm. tauto.
    + intro Hbad.
      destruct (rounded.simulate fl model p_excess_w dt_h duration_h)
        as [ts | e] eqn:Hsim.
      * apply rounded_simulate_inv in Hsim. exfalso. lra.
      * destruct (Hraise e eq_refl) as [[-> _] | [[-> _] | [-> _]]]; eauto.
  - exact Hraise.
  - apply simulate_messages_distinct.
  - intros Hdt Hdur Hle.
    destruct (rounded_simulate_returns model p_excess_w dt_h duration_h
                Hnz Hdt Hdur Hle) as (soc0 & tail & Hrun & Hlen).
    eexists. split; [exact Hrun|]. cbn [steps List.length].
    pose proof (rounded_ratio_nonneg dt_h duration_h Hdt Hdur) as Hq.
    rewrite (py_int_floor _ Hq).
    pose proof (Qfloor_resp_le 0 _ Hq) as Hf.
    change (Qfloor 0) with 0%Z in Hf. lia.
Qed.

(** The surplus [max (p_excess) 0] is a float. *)
Lemma surplus_is_float (x : Q) : fl (py_max (fl x) 0) == py_max (fl x) 0.
Proof.
  unfold py_max.
  destruct (Q.max_spec (fl x) 0) as [[_ E] | [_ E]].
  - rewrite (fl_compat fl laws _ _ E), E. apply (fl_zero fl laws).
  - rewrite (fl_compat fl laws _ _ E), E. apply (fl_idem fl laws).
Qed.

(** C5, amended.  For a positive timestep, an efficiency in (0, 1] and a
    stored energy of at most the capacity, [_route_step] returns.  The
    charging power is [min (s, p_charge_max)], with [s] the surplus
    [max (solar - avionics, 0)] and [p_charge_max] the headroom over
    [eta * dt_h], each operation rounded to a float.  The shunt power is the
    float [s - charging]: it lies between 0 and [s], charging plus shunt
    differs from [s] by at most the rounding error of that one subtraction
    (the unit roundoff times [s - charging]), and the two add up to [s]
    exactly when charging takes all of the surplus or none of it.  The
    returned energy is the clamp of the float
    [energy + eta * charging * dt_h] to [0, capacity] and never exceeds
    the capacity. *)
Theorem route_step_float_headroom_cap
    (p_solar_w p_avionics_w battery_energy_wh eta capacity_wh dt_h : Q) :
  0 < dt_h -> 0 < eta -> eta <= 1 -> battery_energy_wh <= capacity_wh ->
  let p_excess := fl (p_solar_w - p_avionics_w) in
  let s := py_max p_excess 0 in
  let p_charge_max :=
    fl (fl (capacity_wh - battery_energy_wh) / fl (eta * dt_h)) in
  exists charging shunt energy,
    rounded._route_step fl p_solar_w p_avionics_w battery_energy_wh eta
      capacity_wh dt_h
    = Ok (charging, shunt, energy, p_excess)
    /\ charging = py_min s p_charge_max
    /\ shunt = fl (s - charging)
    /\ (0 <= charging /\ charging <= s)
    /\ (0 <= shunt /\ shunt <= s)
    /\ Qabs (charging + shunt - s) <= unit_roundoff * (s - charging)
    /\ (charging == s -> shunt == 0)
    /\ (charging == 0 -> shunt == s)
    /\ energy
       = clamp (fl (battery_energy_wh + fl (fl (eta * charging) * dt_h)))
           0 capacity_wh
    /\ energy <= capacity_wh.
Proof.
  intros Hdt Heta Heta1 Hroom p_excess s p_charge_max.
  assert (Hed : 0 < eta * dt_h) by nra.
  pose proof (fl_pos fl laws _ Hed) as Hg.
  assert (Hh : 0 <= fl (capacity_wh - battery_energy_wh))
    by (apply fl_nonneg; lra).
  assert (Hq : 0 <= p_charge_max).
  { apply fl_nonneg. apply Qle_shift_div_l; [exact Hg | lra]. }
  assert (Hs : 0 <= s) by apply Q.le_max_r.
  assert (Hsf : fl s == s) by apply surplus_is_float.
  set (charging := py_min s p_charge_max).
  assert (Hc0 : 0 <= charging) by (apply Q.min_glb; assumption).
  assert (Hcs : charging <= s) by apply Q.le_min_l.
  exists charging, (fl (s - charging)),
    (clamp (fl (battery_energy_wh + fl (fl (eta * charging) * dt_h)))
       0 capacity_wh).
  split.
  { unfold rounded._route_step. rewrite (proj2 (Qltb_iff _ _) Hdt).
    rewrite fdiv_ok by lra. reflexivity. }
  split; [reflexivity|]. split; [reflexivity|].
  split; [split; assumption|].
  split.
  { split; [apply fl_nonneg; lra|].
    rewrite <- Hsf at 2. apply (fl_mono fl laws). lra. }
  split.
  { pose proof (fl_err fl laws (s - charging)) as He.
    rewrite (Qabs_pos (s - charging)) in He by lra.
    apply Qabs_Qle_condition in He. apply Qabs_Qle_condition.
    split; lra. }
  split.
  { intro E. rewrite <- (fl_zero fl laws). apply (fl_compat fl laws). lra. }
  split.
  { intro E. rewrite <- Hsf at 2. apply (fl_compat fl laws). lra. }
  split; [reflexivity|].
  apply Q.le_min_r.
Qed.

End Rounded.

(* ------------------------------------------------------------------ *)
(** * The integrator and the coupled step in binary64                  *)
(* ------------------------------------------------------------------ *)

Section Binary64Runs.
Import battery_model.



Lemma simulate_float_invalid_argument_witness :
  (exists m,
     rounded.simulate b64
       (mkBatteryModel 100 (b64 (9 # 10)) (b64 (b64 (7 # 10) * 100)))
       50 (b64 (3 # 4)) (b64 (1 # 2)) = Raise (ValueError m))
  <-> (b64 (3 # 4) <= 0 \/ b64 (1 # 2) <= 0 \/ b64 (1 # 2) < b64 (3 # 4)).
Proof.
  refine (proj1 (simulate_float_invalid_argument b64 binary64_laws
                   100 (b64 (7 # 10)) (b64 (9 # 10))
                   (mkBatteryModel 100 (b64 (9 # 10))
                      (b64 (b64 (7 # 10) * 100)))
                   50 (b64 (3 # 4)) (b64 (1 # 2)) _)).
  vm_compute. reflexivity.
Defined.

(** C5 as stated fails in its sum.  With solar 180 W, load 75.7 W, stored energy
    99.5 Wh, efficiency 0.9, capacity 100 Wh and timestep 1/60 h, all within
    the claim's conditions, the step is capped by the headroom; the float
    sum of the returned charging and shunt powers is not the surplus, and
    neither is their exact sum. *)
Lemma route_step_sum_counterexample :
  exists charging shunt energy p_excess,
    rounded._route_step b64 180 (b64 (757 # 10)) (199 # 2) (b64 (9 # 10))
      100 (b64 (1 / 60))
    = Ok (charging, shunt, energy, p_excess)
    /\ (0 < b64 (1 / 60) /\ 0 < b64 (9 # 10) /\ b64 (9 # 10) <= 1
        /\ (199 # 2) <= 100)
    /\ ~ b64 (charging + shunt) == py_max p_excess 0
    /\ ~ charging + shunt == py_max p_excess 0.
Proof.
  do 4 eexists. split; [vm_compute; reflexivity|].
  split.
  { repeat split; vm_compute; reflexivity || discriminate. }
  split; vm_compute; discriminate.
Qed.

Lemma route_step_float_headroom_cap_witness :
  exists charging shunt energy,
    rounded._route_step b64 180 (b64 (757 # 10)) (199 # 2) (b64 (9 # 10))
      100 (b64 (1 / 60))
    = Ok (charging, shunt, energy, b64 (180 - b64 (757 # 10)))
    /\ Qabs (charging + shunt - py_max (b64 (180 - b64 (757 # 10))) 0)
       <= unit_roundoff * (py_max (b64 (180 - b64 (757 # 10))) 0 - charging)
    /\ energy <= 100.
Proof.
  destruct (route_step_float_headroom_cap b64 binary64_laws
              180 (b64 (757 # 10)) (199 # 2) (b64 (9 # 10)) 100 (b64 (1 / 60)))
    as (c & sh & e & Hrun & _ & _ & _ & _ & Hsum & _ & _ & _ & Hcap).
  - vm_compute. reflexivity.
  - vm_compute. reflexivity.
  - vm_compute. discriminate.
  - vm_compute. discriminate.
  - exists c, sh, e. split; [exact Hrun|]. split; assumption.
Defined.

End Binary64Runs.

(* ------------------------------------------------------------------ *)
(** * The trajectory of the integrator under rounded arithmetic        *)
(* ------------------------------------------------------------------ *)

Section RoundedTrajectory.
Import battery_model.

Variable fl : Q -> Q.
Hypothesis laws : rounding_laws fl.

(** A rounding operator keeps the sign of a negative number. *)
Lemma fl_neg (x : Q) : x < 0 -> fl x < 0.
Proof.
  intro Hx. pose proof (fl_err fl laws x) as He.
  rewrite (Qabs_neg x) in He by lra.
  apply Qabs_Qle_condition in He.
  assert (Hu : unit_roundoff < 1) by reflexivity.
  set (u := unit_roundoff) in *. clearbody u. nra.
Qed.

Lemma fl_one : fl 1 == 1.
Proof.
  apply (fl_int fl laws 1). vm_compute. discriminate.
Qed.

(** The rounded clamp of [BatteryModel] stays in range, is monotone and
    leaves an energy in range alone. *)
Lemma rounded_clamp_range (self : BatteryModel) (x : Q) :
  0 <= _capacity_wh self ->
  0 <= rounded._clamp self x /\ rounded._clamp self x <= _capacity_wh self.
Proof.
  intro Hc. unfold rounded._clamp, py_max, py_min. minmax_cases; split; lra.
Qed.

Lemma rounded_clamp_mono (self : BatteryModel) (x y : Q) :
  x <= y -> rounded._clamp self x <= rounded._clamp self y.
Proof.
  intro H. unfold rounded._clamp, py_max, py_min. minmax_cases; lra.
Qed.

(** The clamp of a float by a float capacity is a float. *)
Lemma rounded_clamp_float (self : BatteryModel) (x : Q) :
  fl (_capacity_wh self) == _capacity_wh self ->
  fl (rounded._clamp self (fl x)) == rounded._clamp self (fl x).
Proof.
  intro Hcap. unfold rounded._clamp, py_max, py_min.
  destruct (Q.max_spec 0 (Qmin (_capacity_wh self) (fl x))) as [[_ E] | [_ E]].
  - rewrite (fl_compat fl laws _ _ E), E.
    destruct (Q.min_spec (_capacity_wh self) (fl x)) as [[_ F] | [_ F]].
    + now rewrite (fl_compat fl laws _ _ F), F.
    + rewrite (fl_compat fl laws _ _ F), F. apply (fl_idem fl laws).
  - rewrite (fl_compat fl laws _ _ E), E. apply (fl_zero fl laws).
Qed.

Section Loop.
Variable self : BatteryModel.
Variables p_excess_w dt_h : Q.
Hypothesis capacity_nonzero : ~ _capacity_wh self == 0.

(** The rounded loop appends [rounded.euler_tail]. *)
Lemma rounded_loop_tail (n_steps : nat) :
  forall (energy_wh time_h : Q) (steps : list BatteryState),
    rounded.euler_loop fl self p_excess_w dt_h n_steps energy_wh time_h steps
    = Ok (steps
          ++ rounded.euler_tail fl self p_excess_w dt_h n_steps
               energy_wh time_h).
Proof.
  induction n_steps as [| n IH]; intros energy_wh time_h steps.
  - cbn [rounded.euler_loop rounded.euler_tail]. now rewrite app_nil_r.
  - cbn [rounded.euler_loop rounded.euler_tail]. unfold rounded._to_soc.
    rewrite (fdiv_ok fl) by exact capacity_nonzero. cbn [bind].
    rewrite IH, <- app_assoc. reflexivity.
Qed.

End Loop.

(** The series a successful rounded [simulate] call returns. *)
Lemma rounded_simulate_series (self : BatteryModel)
    (p_excess_w dt_h duration_h : Q) (ts : BatteryTimeSeries) :
  rounded.simulate fl self p_excess_w dt_h duration_h = Ok ts ->
  (0 < dt_h /\ 0 < duration_h /\ dt_h <= duration_h)
  /\ ~ _capacity_wh self == 0
  /\ steps ts
     = mkBatteryState 0 (_initial_energy_wh self)
         (fl (_initial_energy_wh self / _capacity_wh self)) 0
       :: rounded.euler_tail fl self p_excess_w dt_h
            (Z.to_nat (py_int (fl (duration_h / dt_h))))
            (_initial_energy_wh self) 0.
Proof.
  intro Hsim.
  destruct (rounded_simulate_inv fl _ _ _ _ _ Hsim) as [Hargs Hnz].
  split; [exact Hargs|]. split; [exact Hnz|].
  destruct Hargs as (Hdt & Hdur & Hle).
  revert Hsim. unfold rounded.simulate.
  case_test; [lra|]. case_test; [lra|]. case_test; [lra|].
  unfold rounded._to_soc. rewrite (fdiv_ok fl) by exact Hnz. cbn [bind].
  rewrite (fdiv_ok fl) by lra. cbn [bind].
  rewrite rounded_loop_tail by exact Hnz. cbn [bind app].
  now intros [= <-].
Qed.

Section Tail.
Variable self : BatteryModel.
Variables p_excess_w dt_h : Q.
Hypothesis capacity_pos : 0 < _capacity_wh self.
Hypothesis capacity_float : fl (_capacity_wh self) == _capacity_wh self.

Let delta := fl (fl (_eta self * p_excess_w) * dt_h).

Lemma rounded_soc_range (e : Q) :
  0 <= e /\ e <= _capacity_wh self ->
  0 <= fl (e / _capacity_wh self) /\ fl (e / _capacity_wh self) <= 1.
Proof.
  intros [H0 H1]. split.
  - apply (fl_nonneg fl laws). apply Qle_shift_div_l; lra.
  - rewrite <- fl_one. apply (fl_mono fl laws).
    apply Qle_shift_div_r; lra.
Qed.

(** Every appended snapshot holds an energy in range, the state of charge
    computed from it, and the increment of the loop. *)
Lemma rounded_tail_snapshots (n_steps : nat) :
  forall e t,
    Forall (fun s => (0 <= energy_wh s /\ energy_wh s <= _capacity_wh self)
                     /\ soc s = fl (energy_wh s / _capacity_wh self)
                     /\ (0 <= soc s /\ soc s <= 1)
                     /\ delta_e_wh s = delta)
      (rounded.euler_tail fl self p_excess_w dt_h n_steps e t).
Proof.
  induction n_steps as [| n IH]; intros e t; cbn [rounded.euler_tail].
  - constructor.
  - constructor; [| apply IH].
    cbn [energy_wh soc delta_e_wh].
    assert (Hr : 0 <= rounded._clamp self (fl (e + delta))
                 /\ rounded._clamp self (fl (e + delta)) <= _capacity_wh self)
      by (apply rounded_clamp_range; lra).
    split; [exact Hr|]. split; [reflexivity|].
    split; [now apply rounded_soc_range | reflexivity].
Qed.

(** Snapshot [k + 1] of the tail is one step after snapshot [k]. *)
Lemma rounded_tail_step (n_steps : nat) :
  forall e t (head : BatteryState) (k : nat) (a b : BatteryState),
    energy_wh head = e ->
    nth_error
      (head :: rounded.euler_tail fl self p_excess_w dt_h n_steps e t) k
    = Some a ->
    nth_error (rounded.euler_tail fl self p_excess_w dt_h n_steps e t) k
    = Some b ->
    energy_wh b = rounded._clamp self (fl (energy_wh a + delta)).
Proof.
  induction n_steps as [| n IH]; intros e t head k a b Hhead Ha Hb.
  - destruct k; discriminate.
  - cbn [rounded.euler_tail] in Ha, Hb. destruct k as [| k].
    + cbn in Ha, Hb. injection Ha as <-. injection Hb as <-.
      cbn [energy_wh]. now rewrite Hhead.
    + cbn [nth_error] in Ha, Hb.
      exact (IH _ _ _ k a b eq_refl Ha Hb).
Qed.

(** The appended energies follow any relation that relates a float energy
    in range to the clamp of its rounded successor. *)
Lemma rounded_tail_energies (R : Q -> Q -> Prop) :
  (forall e, 0 <= e /\ e <= _capacity_wh self -> fl e == e ->
             R e (rounded._clamp self (fl (e + delta)))) ->
  forall (n : nat) (e t : Q),
    0 <= e /\ e <= _capacity_wh self -> fl e == e ->
    Sorted R (e :: map energy_wh
                     (rounded.euler_tail fl self p_excess_w dt_h n e t)).
Proof.
  intros Hstep n. induction n as [| n IH]; intros e t He Hf;
    cbn [rounded.euler_tail map energy_wh].
  - repeat constructor.
  - constructor.
    + apply IH.
      * apply rounded_clamp_range. lra.
      * now apply rounded_clamp_float.
    + constructor. now apply Hstep.
Qed.

(** The appended time labels never go down. *)
Lemma rounded_tail_times (n_steps : nat) :
  0 <= dt_h ->
  forall e t x,
    fl t == t -> x <= fl (py_round t 10) ->
    Sorted Qle (x :: map battery_model.time_h
                       (rounded.euler_tail fl self p_excess_w dt_h
                          n_steps e t)).
Proof.
  intro Hdt. induction n_steps as [| n IH]; intros e t x Ht Hx;
    cbn [rounded.euler_tail map battery_model.time_h].
  - repeat constructor.
  - assert (Hup : t <= fl (t + dt_h)).
    { rewrite <- Ht at 1. apply (fl_mono fl laws). lra. }
    constructor.
    + apply IH; [apply (fl_idem fl laws) | apply Qle_refl].
    + constructor. eapply Qle_trans; [exact Hx|].
      apply (fl_mono fl laws). now apply py_round_mono.
Qed.

End Tail.

(** X13.  Under rounded arithmetic the time labels of a returned series
    start at 0, are never negative and never go down from one snapshot to
    the next: the running time is a float that grows by a rounded addition
    of the timestep, and [round] and the rounding operator are monotone. *)
Theorem simulate_float_times_monotone (self : BatteryModel)
    (p_excess_w dt_h duration_h : Q) (ts : BatteryTimeSeries) :
  rounded.simulate fl self p_excess_w dt_h duration_h = Ok ts ->
  (exists rest, times ts = 0 :: rest)
  /\ Sorted Qle (times ts)
  /\ Forall (fun t => 0 <= t) (times ts).
Proof.
  intro Hsim.
  apply rounded_simulate_series in Hsim as ((Hdt & _) & _ & Hsteps).
  unfold times. rewrite Hsteps. cbn [map battery_model.time_h].
  assert (Hsorted :
            Sorted Qle
              (0 :: map battery_model.time_h
                      (rounded.euler_tail fl self p_excess_w dt_h
                         (Z.to_nat (py_int (fl (duration_h / dt_h))))
                         (_initial_energy_wh self) 0))).
  { apply rounded_tail_times; [lra | apply (fl_zero fl laws) |].
    rewrite (fl_compat fl laws _ _ (py_round_0 10)), (fl_zero fl laws).
    apply Qle_refl. }
  split; [eauto|]. split; [exact Hsorted|].
  assert (Htrans : Relations_1.Transitive Qle)
    by (intros a b c; apply Qle_trans).
  apply (Sorted_StronglySorted Htrans) in Hsorted.
  inversion Hsorted as [| ? ? _ Hall]; subst.
  constructor; [apply Qle_refl | exact Hall].
Qed.

(** X15.  The trajectory of a constructed model with a float capacity under
    rounded arithmetic.  Every snapshot of a returned series holds a stored
    energy in [0, capacity] and the state of charge, in [0, 1], that is the
    float quotient of that energy by the capacity; and every snapshot after
    the first holds the clamp of the float sum of the previous energy and
    the increment [eta * p_excess_w * dt_h], and records that increment. *)
Theorem simulate_float_recurrence (capacity_wh initial_soc eta : Q)
    (model : BatteryModel) (p_excess_w dt_h duration_h : Q)
    (ts : BatteryTimeSeries) :
  fl capacity_wh == capacity_wh ->
  rounded.BatteryModel_init fl capacity_wh initial_soc eta = Ok model ->
  rounded.simulate fl model p_excess_w dt_h duration_h = Ok ts ->
  Forall (fun s => (0 <= energy_wh s /\ energy_wh s <= capacity_wh)
                   /\ soc s = fl (energy_wh s / capacity_wh)
                   /\ (0 <= soc s /\ soc s <= 1))
    (steps ts)
  /\ (forall (k : nat) (a b : BatteryState),
        nth_error (steps ts) k = Some a ->
        nth_error (steps ts) (S k) = Some b ->
        energy_wh b
        = rounded._clamp model
            (fl (energy_wh a + fl (fl (eta * p_excess_w) * dt_h)))
        /\ delta_e_wh b = fl (fl (eta * p_excess_w) * dt_h)).
Proof.
  intros Hfloat Hinit Hsim.
  apply (rounded_init_ok fl) in Hinit as [(Hc & [Hs0 Hs1] & _) ->].
  apply rounded_simulate_series in Hsim as (_ & _ & Hsteps).
  set (model := mkBatteryModel capacity_wh eta (fl (initial_soc * capacity_wh)))
    in *.
  assert (Hcap : 0 < _capacity_wh model) by exact Hc.
  assert (He0 : 0 <= _initial_energy_wh model
                /\ _initial_energy_wh model <= _capacity_wh model).
  { cbn. split.
    - apply (fl_nonneg fl laws). nra.
    - rewrite <- Hfloat at 2. apply (fl_mono fl laws). nra. }
  pose proof (rounded_tail_snapshots model p_excess_w dt_h Hcap
                (Z.to_nat (py_int (fl (duration_h / dt_h))))
                (_initial_energy_wh model) 0) as Htail.
  rewrite Hsteps. split.
  - constructor.
    + cbn [energy_wh soc]. split; [exact He0|]. split; [reflexivity|].
      now apply (rounded_soc_range model Hcap).
    + eapply Forall_impl; [| exact Htail].
      intros s (Hr & Hsoc & Hsr & _). repeat split; tauto.
  - intros k a b Ha Hb. cbn [nth_error] in Hb. split.
    + exact (rounded_tail_step model p_excess_w dt_h _ _ _ _ k a b
               eq_refl Ha Hb).
    + apply nth_error_In in Hb.
      rewrite Forall_forall in Htail. now apply Htail in Hb.
Qed.

(** X16.  For a constructed model with a float capacity under rounded
    arithmetic, the stored energies of a series never decrease from one
    snapshot to the next under a non-negative drive power, and never
    increase under a non-positive one: every stored energy is a float, so
    the rounded sum with an increment of one sign lies on the same side of
    it. *)
Theorem simulate_float_energy_monotone (capacity_wh initial_soc eta : Q)
    (model : BatteryModel) (p_excess_w dt_h duration_h : Q)
    (ts : BatteryTimeSeries) :
  fl capacity_wh == capacity_wh ->
  rounded.BatteryModel_init fl capacity_wh initial_soc eta = Ok model ->
  rounded.simulate fl model p_excess_w dt_h duration_h = Ok ts ->
  (0 <= p_excess_w -> Sorted Qle (energies ts))
  /\ (p_excess_w <= 0 -> Sorted (fun a b => b <= a) (energies ts)).
Proof.
  intros Hfloat Hinit Hsim.
  apply (rounded_init_ok fl) in Hinit as [(Hc & [Hs0 Hs1] & [Heta0 _]) ->].
  apply rounded_simulate_series in Hsim as ((Hdt & _) & _ & Hsteps).
  set (model := mkBatteryModel capacity_wh eta (fl (initial_soc * capacity_wh)))
    in *.
  assert (Hcap : 0 < _capacity_wh model) by exact Hc.
  assert (Hcf : fl (_capacity_wh model) == _capacity_wh model) by exact Hfloat.
  assert (He0 : 0 <= _initial_energy_wh model
                /\ _initial_energy_wh model <= _capacity_wh model).
  { cbn. split.
    - apply (fl_nonneg fl laws). nra.
    - rewrite <- Hfloat at 2. apply (fl_mono fl laws). nra. }
  assert (Hf0 : fl (_initial_energy_wh model) == _initial_energy_wh model)
    by apply (fl_idem fl laws).
  unfold energies. rewrite Hsteps. cbn [map energy_wh].
  split; intro Hp.
  - apply (rounded_tail_energies model p_excess_w dt_h Hcap Hcf Qle);
      [| exact He0 | exact Hf0].
    intros e [Hlo Hhi] Hfe. cbn [_eta model].
    assert (Hd : 0 <= fl (fl (eta * p_excess_w) * dt_h)).
    { apply (fl_nonneg fl laws).
      assert (0 <= fl (eta * p_excess_w)) by (apply (fl_nonneg fl laws); nra).
      nra. }
    set (d := fl (fl (eta * p_excess_w) * dt_h)) in *.
    assert (Hup : e <= fl (e + d)).
    { rewrite <- Hfe at 1. apply (fl_mono fl laws). lra. }
    set (y := fl (e + d)) in *. clearbody y d.
    unfold rounded._clamp, py_max, py_min. cbn [_capacity_wh model] in *.
    minmax_cases; lra.
  - apply (rounded_tail_energies model p_excess_w dt_h Hcap Hcf
             (fun a b => b <= a)); [| exact He0 | exact Hf0].
    intros e [Hlo Hhi] Hfe. cbn [_eta model].
    assert (Hd : fl (fl (eta * p_excess_w) * dt_h) <= 0).
    { rewrite <- (fl_zero fl laws). apply (fl_mono fl laws).
      assert (fl (eta * p_excess_w) <= 0).
      { rewrite <- (fl_zero fl laws). apply (fl_mono fl laws). nra. }
      nra. }
    set (d := fl (fl (eta * p_excess_w) * dt_h)) in *.
    assert (Hdown : fl (e + d) <= e).
    { rewrite <- Hfe at 2. apply (fl_mono fl laws). lra. }
    set (y := fl (e + d)) in *. clearbody y d.
    unfold rounded._clamp, py_max, py_min. cbn [_capacity_wh model] in *.
    minmax_cases; lra.
Qed.

End RoundedTrajectory.

(* ------------------------------------------------------------------ *)
(** * The coupled step under rounded arithmetic                        *)
(* ------------------------------------------------------------------ *)

Section RoundedStep.

Variable fl : Q -> Q.
Hypothesis laws : rounding_laws fl.

Section Step.
Variables p_solar_w p_avionics_w battery_energy_wh eta capacity_wh dt_h : Q.
Hypothesis dt_pos : 0 < dt_h.
Hypothesis eta_pos : 0 < eta.

Let p_excess := fl (p_solar_w - p_avionics_w).
Let surplus := py_max p_excess 0.
Let p_charge_max :=
  fl (fl (capacity_wh - battery_energy_wh) / fl (eta * dt_h)).
Let charging := py_min surplus p_charge_max.
Let shunt := fl (surplus - charging).
Let delta_e := fl (fl (eta * charging) * dt_h).
Let energy := clamp (fl (battery_energy_wh + delta_e)) 0 capacity_wh.

(** With a positive timestep and efficiency the rounded step returns. *)
Lemma rounded_route_step_returns :
  rounded._route_step fl p_solar_w p_avionics_w battery_energy_wh eta
    capacity_wh dt_h
  = Ok (charging, shunt, energy, p_excess).
Proof.
  assert (Hed : 0 < eta * dt_h) by nra.
  pose proof (fl_pos fl laws _ Hed) as Hg.
  unfold rounded._route_step. rewrite (proj2 (Qltb_iff _ _) dt_pos).
  rewrite (fdiv_ok fl) by lra. reflexivity.
Qed.

Lemma rounded_surplus_nonneg : 0 <= surplus.
Proof.
  apply Q.le_max_r.
Qed.

Lemma rounded_surplus_float : fl surplus == surplus.
Proof.
  apply (surplus_is_float fl laws).
Qed.

Lemma rounded_charging_le : charging <= surplus.
Proof.
  apply Q.le_min_l.
Qed.

(** The shunt power is positive exactly when the charging power is below
    the surplus. *)
Lemma rounded_shunt_sign :
  (charging < surplus -> 0 < shunt) /\ (charging == surplus -> shunt == 0).
Proof.
  split; intro H.
  - apply (fl_pos fl laws). lra.
  - unfold shunt. rewrite <- (fl_zero fl laws). apply (fl_compat fl laws). lra.
Qed.

Hypothesis energy_le : battery_energy_wh <= capacity_wh.

Lemma rounded_fill_rate_nonneg : 0 <= p_charge_max.
Proof.
  assert (Hed : 0 < eta * dt_h) by nra.
  pose proof (fl_pos fl laws _ Hed) as Hg.
  apply (fl_nonneg fl laws). apply Qle_shift_div_l; [exact Hg|].
  assert (0 <= fl (capacity_wh - battery_energy_wh))
    by (apply (fl_nonneg fl laws); lra).
  lra.
Qed.

Lemma rounded_charging_nonneg : 0 <= charging.
Proof.
  apply Q.min_glb; [apply rounded_surplus_nonneg | apply rounded_fill_rate_nonneg].
Qed.

Lemma rounded_delta_nonneg : 0 <= delta_e.
Proof.
  pose proof rounded_charging_nonneg as Hc.
  apply (fl_nonneg fl laws).
  assert (0 <= fl (eta * charging)) by (apply (fl_nonneg fl laws); nra).
  nra.
Qed.

(** Charging nothing stores nothing. *)
Lemma rounded_delta_zero : charging == 0 -> delta_e == 0.
Proof.
  intro Hc. unfold delta_e.
  assert (H1 : fl (eta * charging) == 0).
  { rewrite <- (fl_zero fl laws). apply (fl_compat fl laws).
    rewrite Hc. ring. }
  rewrite <- (fl_zero fl laws). apply (fl_compat fl laws).
  rewrite H1. ring.
Qed.

Lemma rounded_shunt_range : 0 <= shunt /\ shunt <= surplus.
Proof.
  pose proof rounded_charging_le as Hcs.
  pose proof rounded_charging_nonneg as Hc0.
  pose proof rounded_surplus_float as Hsf.
  split.
  - apply (fl_nonneg fl laws). lra.
  - assert (fl (surplus - charging) <= fl surplus)
      by (apply (fl_mono fl laws); lra).
    unfold shunt. lra.
Qed.

(** On a deficit there is no surplus and nothing is charged. *)
Lemma rounded_deficit_charges_nothing :
  p_solar_w <= p_avionics_w -> surplus == 0 /\ charging == 0.
Proof.
  intro Hdeficit. pose proof rounded_charging_nonneg as Hc0.
  pose proof rounded_charging_le as Hcs.
  assert (Hpx : p_excess <= 0).
  { unfold p_excess. rewrite <- (fl_zero fl laws).
    apply (fl_mono fl laws). lra. }
  assert (Hs0 : surplus == 0).
  { unfold surplus, py_max. minmax_cases; lra. }
  split; [exact Hs0 | lra].
Qed.

(** A float stored energy in range is kept when nothing is charged. *)
Lemma rounded_energy_kept :
  0 <= battery_energy_wh -> fl battery_energy_wh == battery_energy_wh ->
  charging == 0 -> energy == battery_energy_wh.
Proof.
  intros He0 Hfe Hc. pose proof (rounded_delta_zero Hc) as Hdz.
  assert (Hy : fl (battery_energy_wh + delta_e) == battery_energy_wh).
  { rewrite <- Hfe at 2. apply (fl_compat fl laws). lra. }
  unfold energy.
  set (y := fl (battery_energy_wh + delta_e)) in *. clearbody y.
  unfold clamp. minmax_cases; lra.
Qed.

End Step.

(** X19.  Energy accounting of the coupled step under rounded arithmetic,
    for a float stored energy in [0, capacity], a positive timestep and a
    positive efficiency: the charging and shunt powers lie between 0 and
    the surplus, the stored energy never decreases and never passes the
    capacity, and it stays what it was when nothing is charged, as on every
    deficit. *)
Theorem route_step_float_energy_accounting
    (p_solar_w p_avionics_w battery_energy_wh eta capacity_wh dt_h : Q) :
  0 <= battery_energy_wh /\ battery_energy_wh <= capacity_wh ->
  fl battery_energy_wh == battery_energy_wh ->
  0 < dt_h -> 0 < eta ->
  exists charging shunt energy,
    rounded._route_step fl p_solar_w p_avionics_w battery_energy_wh eta
      capacity_wh dt_h
    = Ok (charging, shunt, energy, fl (p_solar_w - p_avionics_w))
    /\ (0 <= charging /\ charging <= py_max (fl (p_solar_w - p_avionics_w)) 0)
    /\ (0 <= shunt /\ shunt <= py_max (fl (p_solar_w - p_avionics_w)) 0)
    /\ (battery_energy_wh <= energy /\ energy <= capacity_wh)
    /\ (charging == 0 -> energy == battery_energy_wh)
    /\ (p_solar_w <= p_avionics_w ->
        charging == 0 /\ shunt == 0 /\ energy == battery_energy_wh).
Proof.
  intros [He0 He1] Hfe Hdt Heta.
  do 3 eexists. split; [now apply rounded_route_step_returns|].
  pose proof (rounded_surplus_nonneg p_solar_w p_avionics_w) as Hs.
  pose proof (rounded_surplus_float p_solar_w p_avionics_w) as Hsf.
  pose proof (rounded_charging_le p_solar_w p_avionics_w battery_energy_wh
                eta capacity_wh dt_h) as Hcs.
  pose proof (rounded_charging_nonneg p_solar_w p_avionics_w
                battery_energy_wh eta capacity_wh dt_h Hdt Heta He1) as Hc0.
  pose proof (rounded_delta_nonneg p_solar_w p_avionics_w
                battery_energy_wh eta capacity_wh dt_h Hdt Heta He1) as Hd0.
  pose proof (rounded_energy_kept p_solar_w p_avionics_w
                battery_energy_wh eta capacity_wh dt_h He1 He0 Hfe) as Hkeep.
  pose proof (rounded_deficit_charges_nothing p_solar_w p_avionics_w
                battery_energy_wh eta capacity_wh dt_h Hdt Heta He1)
    as Hdeficit.
  cbv zeta in *.
  set (s := py_max (fl (p_solar_w - p_avionics_w)) 0) in *.
  set (q := fl (fl (capacity_wh - battery_energy_wh) / fl (eta * dt_h))) in *.
  set (c := py_min s q) in *.
  set (d := fl (fl (eta * c) * dt_h)) in *.
  assert (Hsh : 0 <= fl (s - c) /\ fl (s - c) <= s).
  { split; [apply (fl_nonneg fl laws); lra|].
    rewrite <- Hsf at 2. apply (fl_mono fl laws). lra. }
  assert (Hup : battery_energy_wh <= fl (battery_energy_wh + d)).
  { rewrite <- Hfe at 1. apply (fl_mono fl laws). lra. }
  split; [split; assumption|]. split; [exact Hsh|].
  split.
  { set (y := fl (battery_energy_wh + d)) in *. clearbody y.
    unfold clamp. minmax_cases; split; lra. }
  split; [exact Hkeep|].
  intro Hlack. destruct (Hdeficit Hlack) as [Hs0 Hc].
  split; [exact Hc|]. split; [| now apply Hkeep].
  rewrite <- (fl_zero fl laws). apply (fl_compat fl laws). lra.
Qed.

(** X20.  Power reaches the shunt only past a capped charge: with [s] the
    surplus and [p_charge_max] the float fill rate, the rounded step charges
    all of [s] and shunts nothing when [s <= p_charge_max], and charges
    [p_charge_max] and shunts a positive power when [p_charge_max < s]; so
    the shunt power is positive exactly when the fill rate is below the
    surplus. *)
Theorem route_step_float_fill_or_absorb
    (p_solar_w p_avionics_w battery_energy_wh eta capacity_wh dt_h : Q) :
  0 < dt_h -> 0 < eta ->
  exists charging shunt energy,
    rounded._route_step fl p_solar_w p_avionics_w battery_energy_wh eta
      capacity_wh dt_h
    = Ok (charging, shunt, energy, fl (p_solar_w - p_avionics_w))
    /\ let surplus := py_max (fl (p_solar_w - p_avionics_w)) 0 in
       let p_charge_max :=
         fl (fl (capacity_wh - battery_energy_wh) / fl (eta * dt_h)) in
       (surplus <= p_charge_max -> charging == surplus /\ shunt == 0)
       /\ (p_charge_max < surplus ->
           charging == p_charge_max /\ 0 < shunt)
       /\ (0 < shunt <-> p_charge_max < surplus).
Proof.
  intros Hdt Heta.
  do 3 eexists. split; [now apply rounded_route_step_returns|].
  destruct (rounded_shunt_sign p_solar_w p_avionics_w battery_energy_wh
              eta capacity_wh dt_h) as [Hpos Hzero].
  cbv zeta in *.
  set (s := py_max (fl (p_solar_w - p_avionics_w)) 0) in *.
  set (q := fl (fl (capacity_wh - battery_energy_wh) / fl (eta * dt_h))) in *.
  assert (Hfit : s <= q -> py_min s q == s /\ fl (s - py_min s q) == 0).
  { intro H. assert (E : py_min s q == s) by (apply Q.min_l; exact H).
    split; [exact E | now apply Hzero]. }
  assert (Hcap : q < s -> py_min s q == q /\ 0 < fl (s - py_min s q)).
  { intro H. assert (E : py_min s q == q) by (apply Q.min_r; lra).
    split; [exact E | apply Hpos; lra]. }
  split; [exact Hfit|]. split; [exact Hcap|].
  split.
  - intro Hsh. apply Qnot_le_lt. intro Hle.
    destruct (Hfit Hle) as [_ H0]. lra.
  - intro H. now apply Hcap.
Qed.

(** The two clamps agree on a non-negative capacity. *)
Lemma rounded_clamp_agrees (self : battery_model.BatteryModel) (x : Q) :
  0 <= battery_model._capacity_wh self ->
  clamp x 0 (battery_model._capacity_wh self) == rounded._clamp self x.
Proof.
  intro Hc. unfold clamp, rounded._clamp, py_max, py_min.
  minmax_cases; lra.
Qed.

(** X21.  The coupled step against one Euler step of [BatteryModel] with
    the same capacity and efficiency, driven by the float excess
    [p_solar_w - p_avionics_w], from a float stored energy in
    [0, capacity], under rounded arithmetic.  With a surplus the coupled
    step never stores more than the Euler step, and stores the same when
    the surplus does not exceed the fill rate; with a deficit the coupled
    step keeps the energy while the Euler step does not exceed it. *)
Theorem route_step_float_matches_euler_step
    (p_solar_w p_avionics_w battery_energy_wh eta capacity_wh dt_h : Q)
    (initial_energy : Q) :
  0 <= battery_energy_wh /\ battery_energy_wh <= capacity_wh ->
  fl battery_energy_wh == battery_energy_wh ->
  0 < dt_h -> 0 < eta ->
  exists charging shunt energy,
    rounded._route_step fl p_solar_w p_avionics_w battery_energy_wh eta
      capacity_wh dt_h
    = Ok (charging, shunt, energy, fl (p_solar_w - p_avionics_w))
    /\ let model :=
         battery_model.mkBatteryModel capacity_wh eta initial_energy in
       let p_excess := fl (p_solar_w - p_avionics_w) in
       let p_charge_max :=
         fl (fl (capacity_wh - battery_energy_wh) / fl (eta * dt_h)) in
       let euler :=
         rounded._clamp model
           (fl (battery_energy_wh + fl (fl (eta * p_excess) * dt_h))) in
       (p_avionics_w <= p_solar_w -> energy <= euler)
       /\ (p_avionics_w <= p_solar_w -> p_excess <= p_charge_max ->
           energy == euler)
       /\ (p_solar_w <= p_avionics_w ->
           energy == battery_energy_wh /\ euler <= energy).
Proof.
  intros [He0 He1] Hfe Hdt Heta.
  do 3 eexists. split; [now apply rounded_route_step_returns|].
  pose proof (rounded_energy_kept p_solar_w p_avionics_w
                battery_energy_wh eta capacity_wh dt_h He1 He0 Hfe) as Hkeep.
  pose proof (rounded_deficit_charges_nothing p_solar_w p_avionics_w
                battery_energy_wh eta capacity_wh dt_h Hdt Heta He1)
    as Hdeficit.
  cbv zeta in *.
  set (px := fl (p_solar_w - p_avionics_w)) in *.
  set (q := fl (fl (capacity_wh - battery_energy_wh) / fl (eta * dt_h))) in *.
  set (model := battery_model.mkBatteryModel capacity_wh eta initial_energy).
  assert (Hcap : 0 <= battery_model._capacity_wh model) by (cbn; lra).
  assert (Hmono : forall a b, a <= b ->
            fl (battery_energy_wh + fl (fl (eta * a) * dt_h))
            <= fl (battery_energy_wh + fl (fl (eta * b) * dt_h))).
  { intros a b Hab. apply (fl_mono fl laws).
    assert (fl (eta * a) <= fl (eta * b)) by (apply (fl_mono fl laws); nra).
    assert (fl (fl (eta * a) * dt_h) <= fl (fl (eta * b) * dt_h))
      by (apply (fl_mono fl laws); nra).
    lra. }
  assert (Hcomp : forall a b, a == b ->
            fl (battery_energy_wh + fl (fl (eta * a) * dt_h))
            == fl (battery_energy_wh + fl (fl (eta * b) * dt_h))).
  { intros a b Hab. apply Qle_antisym; apply Hmono; lra. }
  assert (Hagree : forall x,
            clamp x 0 capacity_wh == rounded._clamp model x)
    by (intro x; exact (rounded_clamp_agrees model x Hcap)).
  split; [| split].
  - intro Hsurplus.
    assert (Hpx : 0 <= px) by (apply (fl_nonneg fl laws); lra).
    assert (Hle : py_min (py_max px 0) q <= px).
    { unfold py_min, py_max. minmax_cases; lra. }
    rewrite Hagree. apply rounded_clamp_mono. now apply Hmono.
  - intros Hsurplus Hroom.
    assert (Hpx : 0 <= px) by (apply (fl_nonneg fl laws); lra).
    assert (Heq : py_min (py_max px 0) q == px).
    { unfold py_min, py_max. minmax_cases; lra. }
    rewrite Hagree.
    apply Qle_antisym; apply rounded_clamp_mono; apply Hmono; lra.
  - intro Hlack. destruct (Hdeficit Hlack) as [_ Hc].
    specialize (Hkeep Hc).
    split; [exact Hkeep|]. rewrite Hkeep.
    assert (Hpx : px <= 0).
    { unfold px. rewrite <- (fl_zero fl laws). apply (fl_mono fl laws). lra. }
    assert (H1 : fl (eta * px) <= 0).
    { rewrite <- (fl_zero fl laws). apply (fl_mono fl laws). nra. }
    assert (H2 : fl (fl (eta * px) * dt_h) <= 0).
    { rewrite <- (fl_zero fl laws). apply (fl_mono fl laws). nra. }
    assert (H3 : fl (battery_energy_wh + fl (fl (eta * px) * dt_h))
                 <= battery_energy_wh).
    { rewrite <- Hfe at 2. apply (fl_mono fl laws). lra. }
    set (y := fl (battery_energy_wh + fl (fl (eta * px) * dt_h))) in *.
    clearbody y. unfold rounded._clamp, py_max, py_min.
    cbn [battery_model._capacity_wh model]. minmax_cases; lra.
Qed.

(** X22.  The coupled step under rounded arithmetic against
    [EPSController.route] on the same positive float excess, the router
    reading the float state of charge [energy / capacity] ([route] itself
    only subtracts a float from itself or 0 from a float, which no rounding
    changes).  On a full battery both charge nothing and shunt everything;
    below the limit they agree whenever the excess does not exceed the
    float fill rate, and otherwise the coupled step charges less than the
    router allots and shunts a positive power where the router shunts
    none. *)
Theorem route_step_float_versus_route (soc_upper_limit : Q)
    (ctrl : eps_controller.EPSController)
    (p_solar_w p_avionics_w battery_energy_wh eta capacity_wh dt_h : Q)
    (a : eps_controller.RoutingAllocation)
    (charging shunt energy excess : Q) :
  eps_controller.EPSController_init soc_upper_limit = Ok ctrl ->
  0 < capacity_wh ->
  0 <= battery_energy_wh /\ battery_energy_wh <= capacity_wh ->
  0 < dt_h -> 0 < eta -> p_avionics_w < p_solar_w ->
  eps_controller.route ctrl (fl (p_solar_w - p_avionics_w))
    (fl (battery_energy_wh / capacity_wh)) = Ok a ->
  rounded._route_step fl p_solar_w p_avionics_w battery_energy_wh eta
    capacity_wh dt_h
  = Ok (charging, shunt, energy, excess) ->
  let p_charge_max :=
    fl (fl (capacity_wh - battery_energy_wh) / fl (eta * dt_h)) in
  (battery_energy_wh == capacity_wh ->
   charging == 0 /\ eps_controller.battery_charge_w a = 0
   /\ shunt == eps_controller.shunt_w a)
  /\ (fl (battery_energy_wh / capacity_wh) < soc_upper_limit ->
      excess <= p_charge_max ->
      charging == eps_controller.battery_charge_w a
      /\ shunt == eps_controller.shunt_w a)
  /\ (fl (battery_energy_wh / capacity_wh) < soc_upper_limit ->
      p_charge_max < excess ->
      charging < eps_controller.battery_charge_w a
      /\ eps_controller.shunt_w a < shunt).
Proof.
  intros Hinit Hcap [He0 He1] Hdt Heta Hsurplus Hroute Hstep.
  apply EPSController_init_ok in Hinit as [[Hl0 Hl1] ->].
  rewrite rounded_route_step_returns in Hstep by assumption.
  injection Hstep as <- <- _ <-.
  assert (Hpx : 0 < fl (p_solar_w - p_avionics_w))
    by (apply (fl_pos fl laws); lra).
  destruct (route_ok_inv _ _ _ _ Hroute)
    as (_ & Hfull & _ & _ & [(Hp & _) | (_ & Hb & Hs)]); [lra|].
  cbn [eps_controller._soc_upper_limit] in Hfull.
  rewrite Hs, Hb, Hfull.
  destruct (rounded_shunt_sign p_solar_w p_avionics_w battery_energy_wh
              eta capacity_wh dt_h) as [Hpos Hzero].
  pose proof (rounded_surplus_float p_solar_w p_avionics_w) as Hsf.
  cbv zeta in *.
  assert (Hmax : py_max (fl (p_solar_w - p_avionics_w)) 0
                 == fl (p_solar_w - p_avionics_w))
    by (apply Q.max_l; lra).
  set (px := fl (p_solar_w - p_avionics_w)) in *.
  set (s := py_max px 0) in *.
  set (soc := fl (battery_energy_wh / capacity_wh)) in *.
  split; [| split].
  - intro Hfullbat.
    assert (Hsoc1 : soc == 1).
    { unfold soc. rewrite <- (fl_one fl laws). apply (fl_compat fl laws).
      rewrite Hfullbat. field. lra. }
    assert (E : Qle_bool soc_upper_limit soc = true)
      by (apply Qle_bool_iff; lra).
    rewrite E.
    assert (Hh : fl (capacity_wh - battery_energy_wh) == 0).
    { rewrite <- (fl_zero fl laws). apply (fl_compat fl laws). lra. }
    assert (Hq : fl (fl (capacity_wh - battery_energy_wh) / fl (eta * dt_h))
                 == 0).
    { rewrite <- (fl_zero fl laws). apply (fl_compat fl laws).
      rewrite Hh. unfold Qdiv. ring. }
    set (q := fl (fl (capacity_wh - battery_energy_wh) / fl (eta * dt_h)))
      in *.
    assert (Hc : py_min s q == 0) by (unfold py_min; minmax_cases; lra).
    split; [exact Hc|]. split; [reflexivity|].
    assert (Hsh : fl (s - py_min s q) == s).
    { transitivity (fl s); [apply (fl_compat fl laws); lra | exact Hsf]. }
    lra.
  - intros Hbelow Hroom.
    assert (E : Qle_bool soc_upper_limit soc = false)
      by (apply Qle_bool_false; lra).
    rewrite E.
    set (q := fl (fl (capacity_wh - battery_energy_wh) / fl (eta * dt_h)))
      in *.
    assert (Hc : py_min s q == s) by (apply Q.min_l; lra).
    split; [lra|]. rewrite (Hzero Hc). ring.
  - intros Hbelow Hroom.
    assert (E : Qle_bool soc_upper_limit soc = false)
      by (apply Qle_bool_false; lra).
    rewrite E.
    set (q := fl (fl (capacity_wh - battery_energy_wh) / fl (eta * dt_h)))
      in *.
    assert (Hc : py_min s q == q) by (apply Q.min_r; lra).
    split; [lra|].
    assert (0 < fl (s - py_min s q)) by (apply Hpos; lra).
    lra.
Qed.

End RoundedStep.

(* ------------------------------------------------------------------ *)
(** * The power budget functions under rounded arithmetic              *)
(* ------------------------------------------------------------------ *)

Section RoundedPowerBudget.
Import power_model.

Variable fl : Q -> Q.
Hypothesis laws : rounding_laws fl.

(** X2.  Under rounded arithmetic [compute_power_margin] reports
    compliance exactly when the load does not exceed the EPS limit, which
    is exactly when the margin it reports is not negative; end-of-life
    degradation by a non-negative factor never lowers a non-negative float
    load, so a load that is compliant after it was compliant before. *)
Theorem compute_power_margin_float_compliance
    (p_eps_max_w p_nominal_w alpha : Q) :
  (compliant (rounded.compute_power_margin fl p_eps_max_w p_nominal_w) = true
   <-> p_nominal_w <= p_eps_max_w)
  /\ (0 <= P_margin_W
             (rounded.compute_power_margin fl p_eps_max_w p_nominal_w)
      <-> p_nominal_w <= p_eps_max_w)
  /\ (fl p_nominal_w == p_nominal_w -> 0 <= p_nominal_w -> 0 <= alpha ->
      p_nominal_w <= rounded.compute_eol_power fl p_nominal_w alpha
      /\ (compliant (rounded.compute_power_margin fl p_eps_max_w
                       (rounded.compute_eol_power fl p_nominal_w alpha))
          = true ->
          compliant (rounded.compute_power_margin fl p_eps_max_w p_nominal_w)
          = true)).
Proof.
  assert (Hsign : forall a b, 0 <= fl (a - b) <-> b <= a).
  { intros a b. split; intro H.
    - apply Qnot_lt_le. intro Hlt.
      assert (fl (a - b) < 0) by (apply (fl_neg fl laws); lra). lra.
    - apply (fl_nonneg fl laws). lra. }
  unfold rounded.compute_power_margin. cbn [compliant P_margin_W].
  split; [| split].
  - rewrite Qle_bool_iff. apply Hsign.
  - apply Hsign.
  - intros Hf Hp Ha.
    assert (Hup : p_nominal_w <= rounded.compute_eol_power fl p_nominal_w alpha).
    { unfold rounded.compute_eol_power.
      assert (H1 : 1 <= fl (1 + alpha)).
      { pose proof (fl_one fl laws) as Hone.
        assert (fl 1 <= fl (1 + alpha)) by (apply (fl_mono fl laws); lra).
        lra. }
      assert (fl p_nominal_w <= fl (p_nominal_w * fl (1 + alpha)))
        by (apply (fl_mono fl laws); nra).
      lra. }
    split; [exact Hup|].
    rewrite !Qle_bool_iff, !Hsign. lra.
Qed.

(** X3.  Under rounded arithmetic [compute_battery_remaining_energy]
    raises [ValueError] exactly when the state of charge is outside
    [0, 1]; otherwise it returns the float product of the capacity and the
    float [1 - soc], which for a non-negative float capacity lies between 0
    and the capacity, is 0 for a full battery and the whole capacity for
    an empty one. *)
Theorem compute_battery_remaining_energy_float_spec (e_battery_wh soc : Q) :
  (~ (0 <= soc /\ soc <= 1) ->
   rounded.compute_battery_remaining_energy fl e_battery_wh soc
   = Raise (ValueError (StateOfChargeOutOfRange soc)))
  /\ (0 <= soc /\ soc <= 1 ->
      exists r,
        rounded.compute_battery_remaining_energy fl e_battery_wh soc = Ok r
        /\ r = fl (e_battery_wh * fl (1 - soc))
        /\ (0 <= e_battery_wh -> fl e_battery_wh == e_battery_wh ->
            0 <= r /\ r <= e_battery_wh)
        /\ (soc == 1 -> r == 0)
        /\ (soc == 0 -> fl e_battery_wh == e_battery_wh ->
            r == e_battery_wh)).
Proof.
  unfold rounded.compute_battery_remaining_energy.
  destruct (negb _) eqn:E.
  - split; [reflexivity|]. intro Hr. apply closed_range_test in Hr.
    congruence.
  - apply closed_range_test in E. split; [tauto|]. intros [H0 H1].
    eexists. split; [reflexivity|]. split; [reflexivity|].
    assert (Hlo : 0 <= fl (1 - soc)) by (apply (fl_nonneg fl laws); lra).
    assert (Hhi : fl (1 - soc) <= 1).
    { pose proof (fl_one fl laws) as Hone.
      assert (fl (1 - soc) <= fl 1) by (apply (fl_mono fl laws); lra).
      lra. }
    split; [| split].
    + intros Hc Hf. split.
      * apply (fl_nonneg fl laws). nra.
      * assert (fl (e_battery_wh * fl (1 - soc)) <= fl e_battery_wh)
          by (apply (fl_mono fl laws); nra).
        lra.
    + intro Hs.
      assert (Hz : fl (1 - soc) == 0).
      { transitivity (fl 0);
          [apply (fl_compat fl laws); lra | apply (fl_zero fl laws)]. }
      transitivity (fl 0); [| apply (fl_zero fl laws)].
      apply (fl_compat fl laws). rewrite Hz. ring.
    + intros Hs Hf.
      assert (Hz : fl (1 - soc) == 1).
      { transitivity (fl 1);
          [apply (fl_compat fl laws); lra | apply (fl_one fl laws)]. }
      transitivity (fl e_battery_wh); [| exact Hf].
      apply (fl_compat fl laws). rewrite Hz. ring.
Qed.

Lemma rounded_charging_time_value (e_remaining_wh p_excess_w eta t : Q) :
  rounded.compute_charging_time fl e_remaining_wh p_excess_w eta = Ok t ->
  (0 < eta /\ eta <= 1) /\ 0 < p_excess_w
  /\ 0 < fl (p_excess_w * eta)
  /\ t = fl (e_remaining_wh / fl (p_excess_w * eta)).
Proof.
  unfold rounded.compute_charging_time.
  destruct (negb _) eqn:E; [discriminate|].
  apply half_open_range_test in E.
  destruct (Qle_bool p_excess_w 0) eqn:Hp; [discriminate|]. reflect_cmp.
  assert (Hd : 0 < fl (p_excess_w * eta)) by (apply (fl_pos fl laws); nra).
  rewrite (fdiv_ok fl) by lra. intros [= <-]. tauto.
Qed.

(** A quotient by a positive number grows with a numerator that grows and
    with a denominator that shrinks. *)
Lemma quotient_monotone (e1 e2 d1 d2 : Q) :
  0 < d2 -> d2 <= d1 -> e1 <= e2 -> 0 <= e2 -> e1 / d1 <= e2 / d2.
Proof.
  intros Hd2 Hd He He2.
  assert (Hd1 : 0 < d1) by lra.
  assert (Hq : 0 <= e2 / d2) by (apply Qle_shift_div_l; lra).
  apply Qle_shift_div_r; [exact Hd1|].
  assert (E : e2 / d2 * d2 == e2) by (field; lra).
  set (t := e2 / d2) in *. clearbody t. nra.
Qed.

(** X4.  Whenever [compute_charging_time] returns under rounded
    arithmetic, the time is the float quotient of the remaining energy by
    the float effective power [p_excess_w * eta]; it has the sign of the
    remaining energy, an empty headroom takes no time, and the time never
    decreases when the remaining energy grows while the excess power and
    the efficiency do not. *)
Theorem compute_charging_time_float_monotone
    (e_low e_high p_low p_high eta_low eta_high t_low t_high : Q) :
  rounded.compute_charging_time fl e_low p_high eta_high = Ok t_low ->
  rounded.compute_charging_time fl e_high p_low eta_low = Ok t_high ->
  t_low = fl (e_low / fl (p_high * eta_high))
  /\ (0 <= e_low -> 0 <= t_low)
  /\ (0 < e_low -> 0 < t_low)
  /\ (e_low == 0 -> t_low == 0)
  /\ (0 <= e_high -> e_low <= e_high -> p_low <= p_high ->
      eta_low <= eta_high -> t_low <= t_high).
Proof.
  intros Hlow Hhigh.
  apply rounded_charging_time_value in Hlow as ([Hel _] & Hpl & Hdl & ->).
  apply rounded_charging_time_value in Hhigh as ([Heh _] & Hph & Hdh & ->).
  split; [reflexivity|]. split; [| split; [| split]].
  - intro He. apply (fl_nonneg fl laws). apply Qle_shift_div_l; lra.
  - intro He. apply (fl_pos fl laws). apply Qlt_shift_div_l; lra.
  - intro He. transitivity (fl 0); [| apply (fl_zero fl laws)].
    apply (fl_compat fl laws). rewrite He. unfold Qdiv. ring.
  - intros He0 He Hp Heta. apply (fl_mono fl laws).
    apply quotient_monotone; try assumption.
    apply (fl_mono fl laws). nra.
Qed.

End RoundedPowerBudget.

(* ------------------------------------------------------------------ *)
(** * The rounded properties at binary64 inputs                         *)
(* ------------------------------------------------------------------ *)

Section Binary64Instances.
Import battery_model.

Lemma simulate_float_times_monotone_witness :
  exists ts,
    binary64_run 50 (b64 (1 # 10)) 1 = Ok ts /\ Sorted Qle (times ts).
Proof.
  eexists. split; [vm_compute; reflexivity|].
  refine (proj1 (proj2 (simulate_float_times_monotone b64 binary64_laws
                          (mkBatteryModel 100 (b64 (9 # 10))
                             (b64 (b64 (7 # 10) * 100)))
                          50 (b64 (1 # 10)) 1 _ _))).
  vm_compute. reflexivity.
Defined.

Lemma simulate_float_recurrence_witness :
  exists ts,
    binary64_run 200 (1 # 4) (1 # 2) = Ok ts
    /\ Forall (fun s => (0 <= energy_wh s /\ energy_wh s <= 100)
                        /\ soc s = b64 (energy_wh s / 100)
                        /\ (0 <= soc s /\ soc s <= 1))
         (steps ts).
Proof.
  eexists. split; [vm_compute; reflexivity|].
  refine (proj1 (simulate_float_recurrence b64 binary64_laws
                   100 (b64 (7 # 10)) (b64 (9 # 10))
                   (mkBatteryModel 100 (b64 (9 # 10))
                      (b64 (b64 (7 # 10) * 100)))
                   200 (1 # 4) (1 # 2) _ _ _ _)).
  - vm_compute. reflexivity.
  - vm_compute. reflexivity.
  - vm_compute. reflexivity.
Defined.

Lemma simulate_float_energy_monotone_witness :
  exists ts,
    binary64_run 200 (1 # 4) (1 # 2) = Ok ts /\ Sorted Qle (energies ts).
Proof.
  eexists. split; [vm_compute; reflexivity|].
  refine (proj1 (simulate_float_energy_monotone b64 binary64_laws
                   100 (b64 (7 # 10)) (b64 (9 # 10))
                   (mkBatteryModel 100 (b64 (9 # 10))
                      (b64 (b64 (7 # 10) * 100)))
                   200 (1 # 4) (1 # 2) _ _ _ _) _).
  - vm_compute. reflexivity.
  - vm_compute. reflexivity.
  - vm_compute. reflexivity.
  - vm_compute. discriminate.
Defined.

Lemma route_step_float_energy_accounting_witness :
  exists charging shunt energy,
    rounded._route_step b64 180 (b64 (757 # 10)) (199 # 2) (b64 (9 # 10))
      100 (b64 (1 / 60))
    = Ok (charging, shunt, energy, b64 (180 - b64 (757 # 10)))
    /\ (199 # 2) <= energy /\ energy <= 100.
Proof.
  destruct (route_step_float_energy_accounting b64 binary64_laws
              180 (b64 (757 # 10)) (199 # 2) (b64 (9 # 10)) 100
              (b64 (1 / 60)))
    as (c & sh & e & Hrun & _ & _ & Hrange & _).
  - split; vm_compute; discriminate.
  - vm_compute. reflexivity.
  - vm_compute. reflexivity.
  - vm_compute. reflexivity.
  - exists c, sh, e. split; [exact Hrun | exact Hrange].
Defined.

Lemma route_step_float_fill_or_absorb_witness :
  exists charging shunt energy,
    rounded._route_step b64 180 (b64 (757 # 10)) (199 # 2) (b64 (9 # 10))
      100 (b64 (1 / 60))
    = Ok (charging, shunt, energy, b64 (180 - b64 (757 # 10)))
    /\ 0 < shunt.
Proof.
  destruct (route_step_float_fill_or_absorb b64 binary64_laws
              180 (b64 (757 # 10)) (199 # 2) (b64 (9 # 10)) 100
              (b64 (1 / 60)))
    as (c & sh & e & Hrun & _ & Hcapped & _).
  - vm_compute. reflexivity.
  - vm_compute. reflexivity.
  - exists c, sh, e. split; [exact Hrun|].
    apply Hcapped. vm_compute. reflexivity.
Defined.

Lemma route_step_float_matches_euler_step_witness :
  exists charging shunt energy,
    rounded._route_step b64 180 (b64 (757 # 10)) 70 (b64 (9 # 10))
      100 (b64 (1 / 60))
    = Ok (charging, shunt, energy, b64 (180 - b64 (757 # 10)))
    /\ energy
       == rounded._clamp (mkBatteryModel 100 (b64 (9 # 10)) 70)
            (b64 (70 + b64 (b64 (b64 (9 # 10) * b64 (180 - b64 (757 # 10)))
                            * b64 (1 / 60)))).
Proof.
  destruct (route_step_float_matches_euler_step b64 binary64_laws
              180 (b64 (757 # 10)) 70 (b64 (9 # 10)) 100 (b64 (1 / 60)) 70)
    as (c & sh & e & Hrun & _ & Hsame & _).
  - split; vm_compute; discriminate.
  - vm_compute. reflexivity.
  - vm_compute. reflexivity.
  - vm_compute. reflexivity.
  - exists c, sh, e. split; [exact Hrun|].
    apply Hsame; vm_compute; discriminate.
Defined.

Lemma route_step_float_versus_route_witness :
  exists a charging shunt energy excess,
    eps_controller.route (eps_controller.mkEPSController 1)
      (b64 (180 - b64 (757 # 10))) (b64 ((199 # 2) / 100)) = Ok a
    /\ rounded._route_step b64 180 (b64 (757 # 10)) (199 # 2) (b64 (9 # 10))
         100 (b64 (1 / 60))
       = Ok (charging, shunt, energy, excess)
    /\ charging < eps_controller.battery_charge_w a
    /\ eps_controller.shunt_w a < shunt.
Proof.
  do 5 eexists. split; [vm_compute; reflexivity|].
  split; [vm_compute; reflexivity|].
  refine (proj2 (proj2
            (route_step_float_versus_route b64 binary64_laws 1
               (eps_controller.mkEPSController 1)
               180 (b64 (757 # 10)) (199 # 2) (b64 (9 # 10)) 100
               (b64 (1 / 60))
               _ _ _ _ _ _ _ _ _ _ _ _ _)) _ _).
  - reflexivity.
  - reflexivity.
  - split; vm_compute; discriminate.
  - vm_compute. reflexivity.
  - vm_compute. reflexivity.
  - vm_compute. reflexivity.
  - vm_compute. reflexivity.
  - vm_compute. reflexivity.
  - vm_compute. reflexivity.
  - vm_compute. reflexivity.
Defined.

Lemma compute_power_margin_float_compliance_witness :
  power_model.compliant
    (rounded.compute_power_margin b64 150 (b64 (6065 # 100))) = true.
Proof.
  destruct (compute_power_margin_float_compliance b64 binary64_laws
              150 (b64 (6065 # 100)) (b64 (25 # 100)))
    as (_ & _ & H).
  apply H.
  - vm_compute. reflexivity.
  - vm_compute. discriminate.
  - vm_compute. discriminate.
  - vm_compute. reflexivity.
Defined.

Lemma compute_battery_remaining_energy_float_spec_witness :
  exists r,
    rounded.compute_battery_remaining_energy b64 100 (b64 (7 # 10)) = Ok r
    /\ 0 <= r /\ r <= 100.
Proof.
  destruct (compute_battery_remaining_energy_float_spec b64 binary64_laws
              100 (b64 (7 # 10))) as [_ H].
  destruct H as (r & Hr & _ & Hrange & _).
  - split; vm_compute; discriminate.
  - exists r. split; [exact Hr|].
    apply Hrange; vm_compute; [discriminate | reflexivity].
Defined.

Lemma compute_charging_time_float_monotone_witness :
  exists t_low t_high,
    rounded.compute_charging_time b64 20 200 (b64 (9 # 10)) = Ok t_low
    /\ rounded.compute_charging_time b64 30 50 (b64 (9 # 10)) = Ok t_high
    /\ t_low <= t_high.
Proof.
  do 2 eexists. split; [vm_compute; reflexivity|].
  split; [vm_compute; reflexivity|].
  refine (proj2 (proj2 (proj2 (proj2
            (compute_charging_time_float_monotone b64 binary64_laws
               20 30 50 200 (b64 (9 # 10)) (b64 (9 # 10)) _ _ _ _))))
            _ _ _ _).
  - vm_compute. reflexivity.
  - vm_compute. reflexivity.
  - vm_compute. discriminate.
  - vm_compute. discriminate.
  - vm_compute. discriminate.
  - vm_compute. discriminate.
Defined.

End Binary64Instances.

(* ------------------------------------------------------------------ *)
(** * The loop of run_simulation under rounded arithmetic              *)
(* ------------------------------------------------------------------ *)

Section RoundedPowerFlow.
Import eps_power_flow_simulation.

Variable fl : Q -> Q.
Hypothesis laws : rounding_laws fl.

Lemma configured_efficiency_pos : 0 < fl config.BATTERY_CHARGING_EFFICIENCY.
Proof.
  apply (fl_pos fl laws). reflexivity.
Qed.

Lemma configured_timestep_pos : 0 < fl DT_H.
Proof.
  apply (fl_pos fl laws). reflexivity.
Qed.

(** X23.  The loop of [run_simulation] only appends, under rounded
    arithmetic too: started from any record, any stored energy in
    [0, capacity] and any solar and load powers, it returns the record it
    was given followed by [n_steps] entries in each of the seven lists (so
    lists that were aligned stay aligned); each appended entry repeats the
    solar and load powers, holds charging and shunt powers between 0 and
    the surplus, a stored energy in [0, capacity] and the state of charge
    that is the float quotient of that energy by the capacity. *)
Theorem power_flow_loop_float_appends (p_solar p_eol : Q) (n_steps : nat) :
  forall (battery_energy t : Q) (ts0 : EPSTimeSeries),
  0 <= battery_energy /\ battery_energy <= config.BATTERY_CAPACITY_WH ->
  exists tail,
    rounded.power_flow_loop fl p_solar p_eol n_steps battery_energy t ts0
    = Ok (series_app ts0 tail)
    /\ aligned tail n_steps
    /\ (forall m, aligned ts0 m -> aligned (series_app ts0 tail) (m + n_steps))
    /\ Forall (fun x => x = p_solar) (solar_power_w tail)
    /\ Forall (fun x => x = p_eol) (avionics_power_w tail)
    /\ Forall2 (fun c sh =>
                  (0 <= c /\ c <= py_max (fl (p_solar - p_eol)) 0)
                  /\ (0 <= sh /\ sh <= py_max (fl (p_solar - p_eol)) 0))
         (battery_charging_w tail) (shunt_dissipation_w tail)
    /\ Forall (fun e => 0 <= e /\ e <= config.BATTERY_CAPACITY_WH)
         (battery_energy_wh tail)
    /\ Forall2 (fun e soc => soc = fl (e / config.BATTERY_CAPACITY_WH))
         (battery_energy_wh tail) (battery_soc tail).
Proof.
  pose proof configured_efficiency_pos as Heta.
  pose proof configured_timestep_pos as Hdt.
  induction n_steps as [| n IH]; intros battery_energy t ts0 [He0 He1].
  - exists empty_series. cbn [rounded.power_flow_loop].
    rewrite series_app_empty. split; [reflexivity|].
    split; [repeat split|]. split.
    { intros m Hm. now rewrite Nat.add_0_r. }
    cbn. repeat split; constructor.
  - cbn [rounded.power_flow_loop].
    rewrite (rounded_route_step_returns fl laws) by assumption.
    cbn [bind]. rewrite (fdiv_ok fl) by discriminate. cbn [bind].
    pose proof (rounded_charging_nonneg fl laws p_solar p_eol battery_energy
                  _ _ _ Hdt Heta He1) as Hc0.
    pose proof (rounded_charging_le fl p_solar p_eol battery_energy
                  (fl config.BATTERY_CHARGING_EFFICIENCY)
                  config.BATTERY_CAPACITY_WH (fl DT_H)) as Hcs.
    pose proof (rounded_shunt_range fl laws p_solar p_eol battery_energy
                  _ _ _ Hdt Heta He1) as Hsh.
    cbv zeta in Hc0, Hcs, Hsh.
    match goal with
    | |- context [rounded.power_flow_loop fl p_solar p_eol n ?e' ?t' ?ts'] =>
        assert (He' : 0 <= e' /\ e' <= config.BATTERY_CAPACITY_WH)
          by (apply clamp_bounds; discriminate);
        destruct (IH e' t' ts' He')
          as (tail & Hrun & Hal & _ & H1 & H2 & H3 & H4 & H5);
        rewrite Hrun;
        match ts' with
        | append_record _ ?lbl _ _ ?c ?sh _ ?soc =>
            exists (series_app
                      (mkEPSTimeSeries [lbl] [p_solar] [p_eol] [c] [sh]
                         [e'] [soc])
                      tail)
        end
    end.
    split; [now rewrite <- series_app_assoc|].
    match goal with
    | |- aligned ?entries _ /\ _ =>
        assert (Hal1 : aligned entries (1 + n))
          by (apply (aligned_app _ _ 1 n); [repeat split | exact Hal])
    end.
    split; [exact Hal1|]. split.
    { intros m Hm. apply aligned_app; [exact Hm | exact Hal1]. }
    cbn [series_app solar_power_w avionics_power_w battery_charging_w
           shunt_dissipation_w battery_energy_wh battery_soc app].
    repeat split; constructor; auto.
Qed.

(** One coupled step with a surplus stores no more than one Euler step
    from an energy that is not lower. *)
Lemma coupled_step_below_euler_step
    (p_solar p_eol e_coupled e_euler eta capacity dt initial_energy : Q) :
  0 <= eta -> 0 <= dt -> 0 <= capacity ->
  p_eol <= p_solar -> e_coupled <= e_euler ->
  let p_excess := fl (p_solar - p_eol) in
  let charging :=
    py_min (py_max p_excess 0)
      (fl (fl (capacity - e_coupled) / fl (eta * dt))) in
  clamp (fl (e_coupled + fl (fl (eta * charging) * dt))) 0 capacity
  <= rounded._clamp
       (battery_model.mkBatteryModel capacity eta initial_energy)
       (fl (e_euler + fl (fl (eta * p_excess) * dt))).
Proof.
  intros Heta Hdt Hcap Hp He p_excess charging.
  assert (Hpx : 0 <= p_excess) by (apply (fl_nonneg fl laws); lra).
  assert (Hc : charging <= p_excess).
  { unfold charging, py_min, py_max. minmax_cases; lra. }
  assert (H1 : fl (eta * charging) <= fl (eta * p_excess))
    by (apply (fl_mono fl laws); nra).
  assert (H2 : fl (fl (eta * charging) * dt)
               <= fl (fl (eta * p_excess) * dt))
    by (apply (fl_mono fl laws); nra).
  assert (H3 : fl (e_coupled + fl (fl (eta * charging) * dt))
               <= fl (e_euler + fl (fl (eta * p_excess) * dt)))
    by (apply (fl_mono fl laws); lra).
  set (x := fl (e_coupled + fl (fl (eta * charging) * dt))) in *.
  set (y := fl (e_euler + fl (fl (eta * p_excess) * dt))) in *.
  clearbody x y.
  unfold clamp, rounded._clamp, py_max, py_min.
  cbn [battery_model._capacity_wh]. minmax_cases; lra.
Qed.

(** X24.  With a solar power not below the load, under rounded arithmetic
    the coupled loop never stores more than the Euler loop of a
    [BatteryModel] that has the configured capacity and efficiency and is
    driven by the float excess [p_solar - p_eol] in steps of [DT_H]:
    started from a stored energy that is not above the Euler loop's, both
    loops only append, and the stored energies they append compare entry
    by entry. *)
Theorem power_flow_loop_float_below_euler_loop (p_solar p_eol : Q)
    (n_steps : nat) (initial_energy : Q) :
  p_eol <= p_solar ->
  forall (e_coupled e_euler t t' : Q) (ts0 ts : EPSTimeSeries)
         (steps0 steps : list battery_model.BatteryState),
    e_coupled <= e_euler ->
    rounded.power_flow_loop fl p_solar p_eol n_steps e_coupled t ts0 = Ok ts ->
    rounded.euler_loop fl
      (battery_model.mkBatteryModel config.BATTERY_CAPACITY_WH
         (fl config.BATTERY_CHARGING_EFFICIENCY) initial_energy)
      (fl (p_solar - p_eol)) (fl DT_H) n_steps e_euler t' steps0 = Ok steps ->
    exists coupled euler,
      battery_energy_wh ts = battery_energy_wh ts0 ++ coupled
      /\ map battery_model.energy_wh steps
         = map battery_model.energy_wh steps0 ++ euler
      /\ List.length coupled = n_steps
      /\ Forall2 Qle coupled euler.
Proof.
  intro Hp.
  pose proof configured_efficiency_pos as Heta.
  pose proof configured_timestep_pos as Hdt.
  induction n_steps as [| n IH];
    intros e_coupled e_euler t t' ts0 ts steps0 steps He Hflow Heuler.
  - cbn in Hflow, Heuler. injection Hflow as <-. injection Heuler as <-.
    exists [], []. rewrite !app_nil_r. repeat split. constructor.
  - cbn [rounded.power_flow_loop rounded.euler_loop] in Hflow, Heuler.
    rewrite (rounded_route_step_returns fl laws) in Hflow by assumption.
    cbn [bind] in Hflow.
    rewrite (fdiv_ok fl) in Hflow by discriminate. cbn [bind] in Hflow.
    unfold rounded._to_soc in Heuler.
    rewrite (fdiv_ok fl) in Heuler by (cbn; discriminate).
    cbn [bind] in Heuler.
    pose proof (coupled_step_below_euler_step p_solar p_eol e_coupled e_euler
                  (fl config.BATTERY_CHARGING_EFFICIENCY)
                  config.BATTERY_CAPACITY_WH (fl DT_H) initial_energy
                  ltac:(lra) ltac:(lra) ltac:(discriminate) Hp He) as Hstep.
    cbv zeta in Hstep.
    destruct (IH _ _ _ _ _ _ _ _ Hstep Hflow Heuler)
      as (coupled & euler & Hc & Hs & Hlen & Hall).
    cbn [append_record battery_energy_wh] in Hc.
    rewrite map_app in Hs. cbn [map battery_model.energy_wh] in Hs.
    rewrite <- app_assoc in Hc, Hs. cbn [app] in Hc, Hs.
    do 2 eexists. split; [exact Hc|]. split; [exact Hs|].
    split; [cbn [List.length]; now rewrite Hlen|].
    constructor; [exact Hstep | exact Hall].
Qed.

End RoundedPowerFlow.

Lemma power_flow_loop_float_below_euler_loop_witness :
  exists ts steps coupled euler,
    rounded.power_flow_loop b64 180 (b64 (757 # 10)) 2 99 0 empty_series
    = Ok ts
    /\ rounded.euler_loop b64
         (battery_model.mkBatteryModel config.BATTERY_CAPACITY_WH
            (b64 config.BATTERY_CHARGING_EFFICIENCY) 99)
         (b64 (180 - b64 (757 # 10)))
         (b64 eps_power_flow_simulation.DT_H) 2 99 0 [] = Ok steps
    /\ eps_power_flow_simulation.battery_energy_wh ts
       = eps_power_flow_simulation.battery_energy_wh empty_series ++ coupled
    /\ map battery_model.energy_wh steps
       = map battery_model.energy_wh [] ++ euler
    /\ Forall2 Qle coupled euler.
Proof.
  assert (Hflow : exists ts,
            rounded.power_flow_loop b64 180 (b64 (757 # 10)) 2 99 0
              empty_series = Ok ts)
    by (eexists; vm_compute; reflexivity).
  assert (Heuler : exists steps,
            rounded.euler_loop b64
              (battery_model.mkBatteryModel config.BATTERY_CAPACITY_WH
                 (b64 config.BATTERY_CHARGING_EFFICIENCY) 99)
              (b64 (180 - b64 (757 # 10)))
              (b64 eps_power_flow_simulation.DT_H) 2 99 0 [] = Ok steps)
    by (eexists; vm_compute; reflexivity).
  destruct Hflow as [ts Hflow]. destruct Heuler as [steps Heuler].
  assert (Hp : b64 (757 # 10) <= 180) by (vm_compute; discriminate).
  assert (Hle : 99 <= 99) by (vm_compute; discriminate).
  destruct (power_flow_loop_float_below_euler_loop b64 binary64_laws
              180 (b64 (757 # 10)) 2 99 Hp 99 99 0 0 empty_series ts
              [] steps Hle Hflow Heuler)
    as (coupled & euler & Hc & Hs & _ & Hall).
  exists ts, steps, coupled, euler.
  split; [exact Hflow|]. split; [exact Heuler|].
  split; [exact Hc|]. split; [exact Hs | exact Hall].
Defined.

Lemma power_flow_loop_float_appends_witness :
  exists tail,
    rounded.power_flow_loop b64 180 (b64 (757 # 10)) 2 70 0 empty_series
    = Ok (series_app empty_series tail)
    /\ aligned tail 2.
Proof.
  destruct (power_flow_loop_float_appends b64 binary64_laws
              180 (b64 (757 # 10)) 2 70 0 empty_series)
    as (tail & Hrun & Hal & _).
  - split; vm_compute; discriminate.
  - exists tail. split; assumption.
Defined.
